(** * Inventory comparison between agencies: a shallow embedding of
      [streamlit_app.py] and the properties of its data pipeline.

    Text is modelled as [string]: a sequence of 8-bit characters read as
    Latin-1 code points, which is what [pd.read_csv(..., encoding="latin1")]
    yields (one character per byte).  Character 160 is the non-breaking
    space, 233 is e-acute, 201 is E-acute; text beyond Latin-1, which a
    spreadsheet may hold, is outside the model.  Numbers are modelled as
    exact rationals [Q], so the rounding of float64 is abstracted away;
    [None] stands for NaN (the null of a numeric column). *)

From Stdlib Require Import QArith Qabs Ascii String DecimalString DecimalPos.
From Stdlib Require Import Sorted Permutation.
From stdpp Require Import gmap strings list fin_maps.

Open Scope string_scope.

(** ** Python string primitives on Latin-1 text *)

Module Py.

Definition nbsp : ascii := "160"%char.

(** [str.lower] on the Latin-1 repertoire: A-Z and the accented capitals
    192-222 (the multiplication sign 215 apart) move up by 32. *)
Definition lower_char (c : ascii) : ascii :=
  let n := N_of_ascii c in
  if ((65 <=? n) && (n <=? 90))%N
     || ((192 <=? n) && (n <=? 222) && negb (n =? 215))%N
  then ascii_of_N (n + 32) else c.

Fixpoint lower (s : string) : string :=
  match s with
  | EmptyString => EmptyString
  | String c s' => String (lower_char c) (lower s')
  end.

(** [str.isspace] on one Latin-1 character. *)
Definition isspace (c : ascii) : bool :=
  let n := N_of_ascii c in
  (((9 <=? n) && (n <=? 13)) || ((28 <=? n) && (n <=? 32))
   || (n =? 133) || (n =? 160))%N.

Fixpoint lstrip (s : string) : string :=
  match s with
  | EmptyString => EmptyString
  | String c s' => if isspace c then lstrip s' else s
  end.

Fixpoint rstrip (s : string) : string :=
  match s with
  | EmptyString => EmptyString
  | String c s' =>
      match rstrip s' with
      | EmptyString => if isspace c then EmptyString else String c EmptyString
      | r => String c r
      end
  end.

Definition strip (s : string) : string := rstrip (lstrip s).

(** [s.replace(old, new)] for a one-character [old], the only form the
    program uses. *)
Fixpoint replace (old : ascii) (new : string) (s : string) : string :=
  match s with
  | EmptyString => EmptyString
  | String c s' =>
      if Ascii.eqb c old then new ++ replace old new s'
      else String c (replace old new s')
  end.

Definition startswith (s p : string) : bool := String.prefix p s.

(** [sub in s] *)
Fixpoint contains (sub s : string) : bool :=
  String.prefix sub s
  || match s with
     | EmptyString => false
     | String _ s' => contains sub s'
     end.

(** [s[:n]] *)
Fixpoint slice_to (n : nat) (s : string) : string :=
  match n, s with
  | S n', String c s' => String c (slice_to n' s')
  | _, _ => EmptyString
  end.

End Py.

(** ** The five logical columns *)

Inductive Field : Set :=
| CodeArticle | Designation | StockTheorique | StockPhysique | Ecart.

#[global] Instance Field_eq_dec : EqDecision Field.
Proof. solve_decision. Defined.

Definition Field_to_nat (f : Field) : nat :=
  match f with
  | CodeArticle => 0 | Designation => 1 | StockTheorique => 2
  | StockPhysique => 3 | Ecart => 4
  end.

Definition Field_of_nat (n : nat) : option Field :=
  match n with
  | 0 => Some CodeArticle | 1 => Some Designation | 2 => Some StockTheorique
  | 3 => Some StockPhysique | 4 => Some Ecart | _ => None
  end.

#[global] Instance Field_countable : Countable Field.
Proof.
  apply (inj_countable Field_to_nat Field_of_nat). by intros [].
Defined.

Definition required_logical_cols : list Field :=
  [CodeArticle; Designation; StockTheorique; StockPhysique; Ecart].

(** The lower-case patterns of the scan; e-acute is character 233. *)
Definition pat_code_article : string := "code article".
Definition pat_designation : string := "d" ++ String "233" "signation".
Definition pat_stock_theorique : string := "stock th" ++ String "233" "orique".
Definition pat_stock_physique : string := "stock physique".
Definition pat_ecart : string := "ecart".

(** ** Column detection (lines 49 and 61-73 of [charger_inventaire]) *)

(** Line 49: the clean-up applied to every header of the file. *)
Definition clean_header (c : string) : string :=
  Py.strip (Py.replace Py.nbsp " " c).

(** Line 63. *)
Definition col_clean (col : string) : string :=
  Py.replace Py.nbsp " " (Py.lower col).

Definition not_in (f : Field) (col_map : gmap Field string) : bool :=
  bool_decide (col_map !! f = None).

(** One iteration of the [for col in df.columns] loop: the if/elif chain. *)
Definition scan_header (col_map : gmap Field string) (col : string)
  : gmap Field string :=
  let cc := col_clean col in
  if Py.contains pat_code_article cc && not_in CodeArticle col_map
  then <[CodeArticle := col]> col_map
  else if Py.contains pat_designation cc && not_in Designation col_map
  then <[Designation := col]> col_map
  else if Py.contains pat_stock_theorique cc && not_in StockTheorique col_map
  then <[StockTheorique := col]> col_map
  else if Py.contains pat_stock_physique cc && not_in StockPhysique col_map
  then <[StockPhysique := col]> col_map
  else if Py.startswith cc pat_ecart && not_in Ecart col_map
  then <[Ecart := col]> col_map
  else col_map.

Definition scan_headers (columns : list string) : gmap Field string :=
  foldl scan_header ∅ columns.

(** Line 75. *)
Definition missing_of (col_map : gmap Field string) : list Field :=
  filter (fun f => col_map !! f = None) required_logical_cols.

(** ** Raw frames, cells and exceptions *)

(** A cell of a frame as the readers deliver it: missing, text or integer.
    Cells of float columns, whose text form is the shortest decimal that
    reads back to the same float, are left out of the model; so is a column
    of integers with missing values, which pandas holds as floats: an
    integer cell stands in a column of integers or in a column of mixed
    objects. *)
Inductive cell : Set :=
| CNull
| CStr (s : string)
| CInt (z : Z).

#[global] Instance cell_eq_dec : EqDecision cell.
Proof. solve_decision. Defined.

Record raw_frame := { columns : list string; rows : list (list cell) }.

Inductive exn :=
| ReadError                                          (* pd.read_csv / pd.read_excel *)
| SchemaMismatch (missing : list Field) (found : list string)  (* ValueError, line 77 *)
| LengthMismatch                                     (* ValueError of pandas, line 92 *)
| KeyError (label : string)                          (* missing column label *)
| SheetTooLarge                                      (* ValueError of to_excel *)
| InvalidWorksheetName (sheetname : string)          (* xlsxwriter, add_worksheet *)
| DuplicateWorksheetName (sheetname : string).       (* xlsxwriter, add_worksheet *)

(** The uploaded object: its name, and what each of the two readers
    returns on its bytes. *)
Record uploaded := {
  name : string;
  read_csv : exn + raw_frame;
  read_excel : exn + raw_frame
}.

Definition bind {A B} (x : exn + A) (k : A -> exn + B) : exn + B :=
  match x with inl e => inl e | inr a => k a end.

Notation "x <- e ;; k" := (bind e (fun x => k))
  (at level 100, e at next level, right associativity).

(** ** Numeric coercion (lines 100-109) *)

Definition str_of_Z (z : Z) : string :=
  DecimalString.NilZero.string_of_int (Z.to_int z).

(** [.astype(str)] on one cell. *)
Definition astype_str (c : cell) : string :=
  match c with
  | CNull => "nan"
  | CStr s => s
  | CInt z => str_of_Z z
  end.

Definition digit_of (c : ascii) : option Z :=
  let n := N_of_ascii c in
  if ((48 <=? n) && (n <=? 57))%N then Some (Z.of_N n - 48)%Z else None.

(** Reads a run of digits: the accumulated value, the number of digits
    read, and the rest of the text. *)
Fixpoint read_digits (s : string) (acc : Z) (n : nat) : Z * nat * string :=
  match s with
  | String c s' =>
      match digit_of c with
      | Some d => read_digits s' (10 * acc + d)%Z (S n)
      | None => (acc, n, s)
      end
  | EmptyString => (acc, n, s)
  end.

Definition read_sign (s : string) : bool * string :=
  match s with
  | String "-" s' => (true, s')
  | String "+" s' => (false, s')
  | _ => (false, s)
  end.

(** The white space that the number parser of pandas skips before and
    after a number: the space and the characters 9 to 13. *)
Definition isspace_ascii (c : ascii) : bool :=
  let n := N_of_ascii c in
  ((n =? 32) || ((9 <=? n) && (n <=? 13)))%N.

Fixpoint skip_spaces (s : string) : string :=
  match s with
  | EmptyString => EmptyString
  | String c s' => if isspace_ascii c then skip_spaces s' else s
  end.

Definition at_end (s : string) : bool :=
  match skip_spaces s with EmptyString => true | _ => false end.

Definition read_exponent (s : string) : option Z :=
  match s with
  | EmptyString => Some 0%Z
  | String c s' =>
      if Ascii.eqb c "e" || Ascii.eqb c "E" then
        let '(neg, s1) := read_sign s' in
        match read_digits s1 0 0 with
        | (_, O, _) => None
        | (e, _, rest) =>
            if at_end rest then Some (if neg then - e else e)%Z else None
        end
      else if at_end s then Some 0%Z else None
  end.

(** [pd.to_numeric(..., errors="coerce")] on one text: white space around
    the number is skipped; the number is an optional sign, digits with an
    optional decimal point, an optional exponent; any other text (among them
    ["nan"] and the empty text) is coerced to NaN.  The texts that pandas
    reads as infinities (["inf"], ["Infinity"], signed or not) and the
    numbers beyond the range of float64 are outside the model, which has no
    infinite number. *)
Definition to_numeric (s : string) : option Q :=
  let '(neg, s0) := read_sign (skip_spaces s) in
  let '(ip, ni, s1) := read_digits s0 0 0 in
  let '(m, nf, s2) :=
    match s1 with
    | String "." s1' => let '(m, k, r) := read_digits s1' ip 0 in (m, k, r)
    | _ => (ip, O, s1)
    end in
  if (ni + nf =? 0)%nat then None else
  match read_exponent s2 with
  | None => None
  | Some e =>
      let m := (if neg then - m else m)%Z in
      let e := (e - Z.of_nat nf)%Z in
      Some (if (0 <=? e)%Z then inject_Z (m * 10 ^ e)
            else Qmake m (Z.to_pos (10 ^ (- e))))
  end.

(** The chain applied to each of the three numeric columns. *)
Definition coerce (c : cell) : option Q :=
  to_numeric
    (Py.replace "," "."
       (Py.replace " " ""
          (Py.replace Py.nbsp "" (astype_str c)))).

(** ** The inventory parser [charger_inventaire] *)

(** A row of [df_inv] right after the projection on the five columns. *)
Record ProjRow := {
  p_code : cell; p_desig : cell; p_theo : cell; p_phys : cell; p_ecart : cell
}.

(** A row of the normalised inventory. *)
Record InvRow := {
  code_article : cell;
  designation : cell;
  stock_theorique : option Q;
  stock_physique : option Q;
  ecart : option Q
}.

(** Positions of the columns carrying a label: [df[[label]]] selects all
    of them. *)
Fixpoint positions (label : string) (cols : list string) (i : nat) : list nat :=
  match cols with
  | [] => []
  | c :: cols' =>
      if String.eqb c label then i :: positions label cols' (S i)
      else positions label cols' (S i)
  end.

Definition label_of (col_map : gmap Field string) (f : Field) : string :=
  default "" (col_map !! f).

(** Lines 82-98: select the mapped labels, then rename by position.  A
    label carried by several columns selects them all, and the renaming to
    five names then fails. *)
Definition project (cols : list string) (col_map : gmap Field string)
    (data : list (list cell)) : exn + list ProjRow :=
  match flat_map (fun f => positions (label_of col_map f) cols 0)
                 required_logical_cols with
  | [i0; i1; i2; i3; i4] =>
      inr (map (fun r => {| p_code := nth i0 r CNull; p_desig := nth i1 r CNull;
                            p_theo := nth i2 r CNull; p_phys := nth i3 r CNull;
                            p_ecart := nth i4 r CNull |}) data)
  | _ => inl LengthMismatch
  end.

Definition convert (p : ProjRow) : InvRow :=
  {| code_article := p_code p;
     designation := p_desig p;
     stock_theorique := coerce (p_theo p);
     stock_physique := coerce (p_phys p);
     ecart := coerce (p_ecart p) |}.

Definition notna (c : cell) : bool :=
  match c with CNull => false | _ => true end.

(** Line 112. *)
Definition dropna_code (df : list InvRow) : list InvRow :=
  List.filter (fun r => notna (code_article r)) df.

(** Line 113. *)
Definition strip_code (r : InvRow) : InvRow :=
  {| code_article := CStr (Py.strip (astype_str (code_article r)));
     designation := designation r;
     stock_theorique := stock_theorique r;
     stock_physique := stock_physique r;
     ecart := ecart r |}.

Definition endswith (s suffix : string) : bool :=
  let n := String.length s in
  let k := String.length suffix in
  (k <=? n)%nat && String.eqb (String.substring (n - k) k s) suffix.

(** Lines 43-46: the extension of the name selects the reader. *)
Definition read_frame (uploaded_file : uploaded) : exn + raw_frame :=
  if endswith (Py.lower (name uploaded_file)) ".csv"
  then read_csv uploaded_file else read_excel uploaded_file.

Definition charger_inventaire (uploaded_file : uploaded) : exn + list InvRow :=
  df <- read_frame uploaded_file ;;
  let cols := map clean_header (columns df) in
  let col_map := scan_headers cols in
  let missing := missing_of col_map in
  match missing with
  | _ :: _ => inl (SchemaMismatch missing cols)
  | [] =>
      df_inv <- project cols col_map (rows df) ;;
      inr (map strip_code (dropna_code (map convert df_inv)))
  end.

(** ** Frames with named columns

    Inside [comparer_deux_agences] the columns are addressed by labels built
    from the agency names, so a frame is kept as pandas keeps it: an ordered
    list of labelled columns. *)

Inductive value :=
| VCell (c : cell)          (* a cell of an object column *)
| VNum (x : option Q).      (* a cell of a numeric column, [None] is NaN *)

Definition frame := list (string * list value).

Definition col_code_article : string := "Code article".
Definition col_designation : string := "D" ++ String "233" "signation".
Definition col_stock_theorique : string := "Stock th" ++ String "233" "orique".
Definition col_stock_physique : string := "Stock physique".
Definition col_ecart : string := "Ecart".
Definition col_agence : string := "Agence".
Definition col_agence_comparee : string := "Agence compar" ++ String "233" "e".
Definition col_ecart_des_2_agences : string := "Ecart_des_2_agences".
Definition col_somme_ecarts : string := "Somme_ecarts".

(** [f"Ecart_{nom}"] *)
Definition col_ecart_de (nom : string) : string := "Ecart_" ++ nom.

Definition labels (df : frame) : list string := map fst df.

Definition has_label (label : string) (df : frame) : bool :=
  existsb (String.eqb label) (labels df).

(** [df[label]] *)
Fixpoint getitem (label : string) (df : frame) : exn + list value :=
  match df with
  | [] => inl (KeyError label)
  | (l, c) :: df' => if String.eqb l label then inr c else getitem label df'
  end.

(** [df[label] = col], also the insertion of a key of a dict literal: an
    existing label keeps its place and takes the new column. *)
Fixpoint setitem (label : string) (col : list value) (df : frame) : frame :=
  match df with
  | [] => [(label, col)]
  | (l, c) :: df' =>
      if String.eqb l label then (l, col) :: df'
      else (l, c) :: setitem label col df'
  end.

(** [df.rename(columns={old: new})] *)
Definition rename (old new : string) (df : frame) : frame :=
  map (fun '(l, c) => (if String.eqb l old then new else l, c)) df.

(** [df[[l1, l2]]] *)
Definition select2 (l1 l2 : string) (df : frame) : exn + frame :=
  c1 <- getitem l1 df ;;
  c2 <- getitem l2 df ;;
  inr [(l1, c1); (l2, c2)].

(** The normalised inventory as a frame under its canonical labels. *)
Definition frame_of_inventaire (df : list InvRow) : frame :=
  [ (col_code_article, map (fun r => VCell (code_article r)) df);
    (col_designation, map (fun r => VCell (designation r)) df);
    (col_stock_theorique, map (fun r => VNum (stock_theorique r)) df);
    (col_stock_physique, map (fun r => VNum (stock_physique r)) df);
    (col_ecart, map (fun r => VNum (ecart r)) df) ].

Definition opt_Qeqb (x y : option Q) : bool :=
  match x, y with
  | Some p, Some q => Qeq_bool p q
  | None, None => true
  | _, _ => false
  end.

(** Equality of join keys. *)
Definition key_eqb (u v : value) : bool :=
  match u, v with
  | VCell c, VCell d => bool_decide (c = d)
  | VNum x, VNum y => opt_Qeqb x y
  | _, _ => false
  end.

(** Positions of the cells of [col] equal to the key [k]. *)
Fixpoint key_positions (k : value) (col : list value) (i : nat) : list nat :=
  match col with
  | [] => []
  | v :: col' =>
      if key_eqb k v then i :: key_positions k col' (S i)
      else key_positions k col' (S i)
  end.

(** The pairs (left position, right position) of an inner join, in the
    order of the left keys, the matches of one left row in the order of
    the right frame. *)
Fixpoint join_indexers (lk rk : list value) (i : nat) : list (nat * nat) :=
  match lk with
  | [] => []
  | k :: lk' =>
      (map (fun j => (i, j)) (key_positions k rk 0)
         ++ join_indexers lk' rk (S i))%list
  end.

(** [col.take(indexer)]; a position out of range, which the indexers built
    by the program never hold, is skipped. *)
Fixpoint take_idx {A} (indexer : list nat) (col : list A) : list A :=
  match indexer with
  | [] => []
  | i :: indexer' =>
      match col !! i with
      | Some x => x :: take_idx indexer' col
      | None => take_idx indexer' col
      end
  end.

(** [left.merge(right, on=key, how="inner")]: the columns of [left], then
    those of [right] but the key; a label other than the key that both
    frames carry gets the suffix ["_x"] on the left and ["_y"] on the
    right. *)
Definition merge_inner (key : string) (left right : frame) : exn + frame :=
  lk <- getitem key left ;;
  rk <- getitem key right ;;
  let ix := join_indexers lk rk 0 in
  let li := map fst ix in
  let ri := map snd ix in
  let others := List.filter (fun p => negb (String.eqb (fst p) key)) right in
  inr (map (fun '(l, c) =>
              (if negb (String.eqb l key) && has_label l others
               then String.append l "_x" else l, take_idx li c)) left
       ++ map (fun '(l, c) =>
                 (if has_label l left then String.append l "_y" else l, take_idx ri c))
              others)%list.

Definition num_of (v : value) : option Q :=
  match v with VNum x => x | VCell _ => None end.

Definition opt_lift2 (f : Q -> Q -> Q) (x y : option Q) : option Q :=
  match x, y with
  | Some p, Some q => Some (f p q)
  | _, _ => None
  end.

(** Arithmetic of two numeric columns, cell by cell, on exact numbers; NaN
    is absorbing.  The wrap-around of int64, the rounding of float64 and the
    infinities are outside the model. *)
Definition col_sub (x y : list value) : list value :=
  zip_with (fun u v => VNum (opt_lift2 Qminus (num_of u) (num_of v))) x y.

Definition col_add (x y : list value) : list value :=
  zip_with (fun u v => VNum (opt_lift2 Qplus (num_of u) (num_of v))) x y.

(** [s.abs()] *)
Definition col_abs (s : list value) : list (option Q) :=
  map (fun v => Qabs <$> num_of v) s.

(** [pd.DataFrame({...})]: the keys are inserted in the order written. *)
Definition dataframe (items : list (string * list value)) : frame :=
  foldl (fun df '(l, c) => setitem l c df) [] items.

(** ** Sorting, comparison and report generation

    [sort_values] is called without [kind], so pandas sorts with its default
    kernel ["quicksort"], which numpy does not promise to be stable.  The
    kernel is therefore a parameter of the model: [argsort ks] stands for
    [ks.argsort(kind="quicksort")] on NaN-free keys.  Its properties are
    proved for every kernel that meets the contract of [argsort]; the
    portable kernel of numpy is [Npy.argsort] below. *)

(** The positions of the keys that are not NaN, with these keys, and the
    positions of the NaN keys: the boolean-mask selections of pandas. *)
Fixpoint non_nans_from (i : nat) (items : list (option Q)) : list (nat * Q) :=
  match items with
  | [] => []
  | Some x :: items' => (i, x) :: non_nans_from (S i) items'
  | None :: items' => non_nans_from (S i) items'
  end.

Fixpoint nans_from (i : nat) (items : list (option Q)) : list nat :=
  match items with
  | [] => []
  | Some _ :: items' => nans_from (S i) items'
  | None :: items' => i :: nans_from (S i) items'
  end.

(** What numpy promises of [argsort] whatever the kind: the positions of
    the keys, each once, such that the keys read in that order ascend. *)
Definition argsort_contract (argsort : list Q -> list nat) : Prop :=
  forall ks : list Q,
    Permutation (argsort ks) (seq 0 (length ks))
    /\ StronglySorted Qle (take_idx (argsort ks) ks).

(** A kernel that meets the contract and keeps equal keys in their order:
    the insertion of the positions from the last to the first. *)
Fixpoint insert_idx (before : nat -> nat -> bool) (i : nat) (l : list nat)
  : list nat :=
  match l with
  | [] => [i]
  | j :: l' => if before i j then i :: l else j :: insert_idx before i l'
  end.

Definition key_at (ks : list Q) (i : nat) : Q := nth i ks 0%Q.

Definition argsort_stable (ks : list Q) : list nat :=
  foldr (insert_idx (fun i j => Qle_bool (key_at ks i) (key_at ks j)))
        [] (seq 0 (length ks)).

(** ** The kernel of numpy behind [kind="quicksort"]

    The portable [argsort] kernel of numpy (npysort, [aquicksort_]): an
    introsort on the array of positions [tosort], initially 0, 1, ..., n-1.
    A range of more than 17 positions is partitioned around the median of
    its first, middle and last keys, the larger part is pushed on a stack
    and the smaller one is treated first; a range of at most 17 positions is
    sorted by insertion; a range reached after more than 2*log2(n)
    partitions is sorted by heapsort.  The loops of the C code are bounded
    here by the length of the array, which they never exceed.  On
    processors with vector instructions numpy may dispatch [argsort] to a
    vectorised kernel instead; as this one, it does not keep equal keys in
    their order. *)

Module Npy.

Definition SMALL_QUICKSORT : nat := 16.

Definition Qlt_b (x y : Q) : bool := negb (Qle_bool y x).

(** [INTP_SWAP] of the positions held at [p] and [q]. *)
Definition swap (a : list nat) (p q : nat) : list nat :=
  <[p := nth q a 0%nat]> (<[q := nth p a 0%nat]> a).

Record state := {
  tosort : list nat;
  pl : nat;
  pr : nat;
  cdepth : Z;
  stack : list (nat * nat * Z)
}.

Section Kernel.

Variable v : list Q.

(** [v[*p]] *)
Definition key (a : list nat) (p : nat) : Q := key_at v (nth p a 0%nat).

(** [do { ++pi; } while (v[*pi] < vp);] *)
Fixpoint scan_up (fuel : nat) (a : list nat) (vp : Q) (pi : nat) : nat :=
  match fuel with
  | O => pi
  | S fuel' =>
      if Qlt_b (key a (S pi)) vp then scan_up fuel' a vp (S pi) else S pi
  end.

(** [do { --pj; } while (vp < v[*pj]);] *)
Fixpoint scan_down (fuel : nat) (a : list nat) (vp : Q) (pj : nat) : nat :=
  match fuel with
  | O => pj
  | S fuel' =>
      if Qlt_b vp (key a (pred pj)) then scan_down fuel' a vp (pred pj)
      else pred pj
  end.

(** The [for (;;)] loop of the partition: the array and the final [pi]. *)
Fixpoint partition (fuel : nat) (a : list nat) (vp : Q) (pi pj : nat)
  : list nat * nat :=
  match fuel with
  | O => (a, pi)
  | S fuel' =>
      let pi := scan_up (length a) a vp pi in
      let pj := scan_down (length a) a vp pj in
      if (pj <=? pi)%nat then (a, pi)
      else partition fuel' (swap a pi pj) vp pi pj
  end.

(** One turn of [while ((pr - pl) > SMALL_QUICKSORT)]. *)
Definition partition_step (s : state) : state :=
  let a := tosort s in
  let pm := (pl s + Nat.div2 (pr s - pl s))%nat in
  let a := if Qlt_b (key a pm) (key a (pl s)) then swap a pm (pl s) else a in
  let a := if Qlt_b (key a (pr s)) (key a pm) then swap a (pr s) pm else a in
  let a := if Qlt_b (key a pm) (key a (pl s)) then swap a pm (pl s) else a in
  let vp := key a pm in
  let a := swap a pm (pr s - 1) in
  let '(a, pi) := partition (length a) a vp (pl s) (pr s - 1) in
  let a := swap a pi (pr s - 1) in
  let cdepth := (cdepth s - 1)%Z in
  if (pi - pl s <? pr s - pi)%nat then
    {| tosort := a; pl := pl s; pr := (pi - 1)%nat; cdepth := cdepth;
       stack := ((pi + 1)%nat, pr s, cdepth) :: stack s |}
  else
    {| tosort := a; pl := (pi + 1)%nat; pr := pr s; cdepth := cdepth;
       stack := (pl s, (pi - 1)%nat, cdepth) :: stack s |}.

Fixpoint partition_while (fuel : nat) (s : state) : state :=
  match fuel with
  | O => s
  | S fuel' =>
      if (SMALL_QUICKSORT <? pr s - pl s)%nat
      then partition_while fuel' (partition_step s) else s
  end.

(** The inner loop of the insertion sort, for the position [vi] taken at
    [pj]: [while (pj > pl && vp < v[*pk]) { *pj-- = *pk--; } *pj = vi;] *)
Fixpoint shift_down (fuel : nat) (a : list nat) (lo vi pj : nat) : list nat :=
  match fuel with
  | O => <[pj := vi]> a
  | S fuel' =>
      if (lo <? pj)%nat && Qlt_b (key_at v vi) (key a (pj - 1))
      then shift_down fuel' (<[pj := nth (pj - 1) a 0%nat]> a) lo vi (pj - 1)
      else <[pj := vi]> a
  end.

Definition insertion_sort (a : list nat) (lo hi : nat) : list nat :=
  foldl (fun a pi => shift_down (length a) a lo (nth pi a 0%nat) pi)
        a (seq (S lo) (hi - lo)).

(** [aheapsort_] on the [n] positions from [lo]; the heap is indexed
    from 1. *)
Definition hget (a : list nat) (lo i : nat) : nat := nth (lo + i - 1) a 0%nat.
Definition hset (a : list nat) (lo i x : nat) : list nat := <[(lo + i - 1)%nat := x]> a.

Fixpoint sift (fuel : nat) (a : list nat) (lo n tmp i j : nat) : list nat :=
  match fuel with
  | O => hset a lo i tmp
  | S fuel' =>
      if (j <=? n)%nat then
        let j := if (j <? n)%nat
                    && Qlt_b (key_at v (hget a lo j)) (key_at v (hget a lo (j + 1)))
                 then (j + 1)%nat else j in
        if Qlt_b (key_at v tmp) (key_at v (hget a lo j))
        then sift fuel' (hset a lo i (hget a lo j)) lo n tmp j (j + j)
        else hset a lo i tmp
      else hset a lo i tmp
  end.

Definition aheapsort (a : list nat) (lo n : nat) : list nat :=
  let a := foldl (fun a l => sift (length a) a lo n (hget a lo l) l (l + l))
                 a (rev (seq 1 (Nat.div2 n))) in
  foldl (fun a m =>
           let tmp := hget a lo m in
           let a := hset a lo m (hget a lo 1) in
           sift (length a) a lo (m - 1) tmp 1 2)
        a (rev (seq 2 (n - 1))).

(** The body of [while (1)]: heapsort or partitions and insertion sort of
    the current range, then the next range of the stack. *)
Fixpoint run (fuel : nat) (s : state) : list nat :=
  match fuel with
  | O => tosort s
  | S fuel' =>
      let s :=
        if (cdepth s <? 0)%Z then
          {| tosort := aheapsort (tosort s) (pl s) (pr s - pl s + 1);
             pl := pl s; pr := pr s; cdepth := cdepth s; stack := stack s |}
        else
          let s := partition_while (length (tosort s)) s in
          {| tosort := insertion_sort (tosort s) (pl s) (pr s);
             pl := pl s; pr := pr s; cdepth := cdepth s; stack := stack s |} in
      match stack s with
      | [] => tosort s
      | (lo, hi, d) :: st =>
          run fuel' {| tosort := tosort s; pl := lo; pr := hi; cdepth := d;
                       stack := st |}
      end
  end.

End Kernel.

(** [ks.argsort(kind="quicksort")] *)
Definition argsort (ks : list Q) : list nat :=
  match length ks with
  | O => []
  | S n =>
      run ks (S (length ks))
          {| tosort := seq 0 (length ks); pl := 0; pr := n;
             cdepth := 2 * Z.log2 (Z.of_nat (length ks)); stack := [] |}
  end.

End Npy.

(** ** The workbook writer: [DataFrame.to_excel] over xlsxwriter

    A workbook is the list of its worksheets in the order of their
    creation; a worksheet is kept as its name and the frames written to it,
    the oldest first (each is written from the top left cell, over what the
    worksheet already holds). *)

Definition workbook : Type := list (string * list frame).

(** The characters that xlsxwriter refuses in the name of a worksheet:
    [ ] : * ? / and the backslash. *)
Definition invalid_char (c : ascii) : bool :=
  existsb (Ascii.eqb c) ["["; "]"; ":"; "*"; "?"; "/"; "\"]%char.

Fixpoint has_invalid_char (s : string) : bool :=
  match s with
  | EmptyString => false
  | String c s' => invalid_char c || has_invalid_char s'
  end.

(** [Workbook._check_sheetname]: an empty name is replaced by the default
    name, Sheet followed by the rank of the worksheet; a name of more than 31
    characters, a name holding a refused character, a name that starts or
    ends with an apostrophe and a name equal, case ignored, to the name of a
    worksheet of the workbook are refused. *)
Definition check_sheetname (sheetname : string) (book : workbook)
  : exn + string :=
  let sheetname :=
    if String.eqb sheetname ""
    then "Sheet" ++ str_of_Z (Z.of_nat (S (length book))) else sheetname in
  if (31 <? String.length sheetname)%nat
  then inl (InvalidWorksheetName sheetname)
  else if has_invalid_char sheetname
  then inl (InvalidWorksheetName sheetname)
  else if Py.startswith sheetname "'" || endswith sheetname "'"
  then inl (InvalidWorksheetName sheetname)
  else if existsb (fun ws => String.eqb (Py.lower sheetname) (Py.lower (fst ws)))
                  book
  then inl (DuplicateWorksheetName sheetname)
  else inr sheetname.

(** [Workbook.get_worksheet_by_name]: the name is looked up as it is. *)
Definition has_sheet (sheet_name : string) (book : workbook) : bool :=
  existsb (fun ws => String.eqb (fst ws) sheet_name) book.

Definition write_cells (sheet_name : string) (df : frame) (book : workbook)
  : workbook :=
  map (fun ws => if String.eqb (fst ws) sheet_name
                 then (fst ws, (snd ws ++ [df])%list) else ws) book.

(** [df.shape]: the number of rows is that of the cells of a column. *)
Definition nrows (df : frame) : nat :=
  match df with
  | [] => 0
  | (_, c) :: _ => length c
  end.

Definition max_rows : Z := 1048576.
Definition max_cols : Z := 16384.

(** [df.to_excel(writer, index=False, sheet_name=sheet_name)]: a frame
    larger than a sheet is refused; the frame goes to the worksheet of that
    very name when the workbook has one, and to a new worksheet, whose name
    is checked, otherwise. *)
Definition to_excel (df : frame) (sheet_name : string) (writer : workbook)
  : exn + workbook :=
  if (max_rows <? Z.of_nat (nrows df))%Z || (max_cols <? Z.of_nat (length df))%Z
  then inl SheetTooLarge
  else if has_sheet sheet_name writer
  then inr (write_cells sheet_name df writer)
  else
    sheetname <- check_sheetname sheet_name writer ;;
    inr (writer ++ [(sheetname, [df])])%list.

(** A document offered for download: the name of the file and the
    worksheets of its workbook. *)
Record document := { file_name : string; sheets : workbook }.

Inductive outcome :=
| Refused                                           (* st.error, nothing built *)
| Generated (docs : list document)
| Aborted (docs : list document) (e : exn).         (* uncaught exception *)

Section Pipeline.

Variable argsort : list Q -> list nat.

(** The indexer of pandas for a descending sort with NaN last: the NaN
    positions are set apart, the other keys are reversed, sorted in
    ascending order and reversed again, and the NaN positions follow. *)
Definition nargsort_desc (items : list (option Q)) : list nat :=
  let nn := non_nans_from 0 items in
  let nan_idx := nans_from 0 items in
  let non_nans := rev (map snd nn) in
  let non_nan_idx := rev (map fst nn) in
  let indexer := take_idx (argsort non_nans) non_nan_idx in
  (rev indexer ++ nan_idx)%list.

(** [df.sort_values(by=label, key=lambda s: s.abs(), ascending=False)] *)
Definition sort_values_abs_desc (label : string) (df : frame) : exn + frame :=
  s <- getitem label df ;;
  let indexer := nargsort_desc (col_abs s) in
  inr (map (fun '(l, c) => (l, take_idx indexer c)) df).

Definition comparer_deux_agences (nom_a : string) (df_a : list InvRow)
    (nom_b : string) (df_b : list InvRow) : exn + frame :=
  let a := rename col_ecart (col_ecart_de nom_a) (frame_of_inventaire df_a) in
  let b := rename col_ecart (col_ecart_de nom_b) (frame_of_inventaire df_b) in
  b2 <- select2 col_code_article (col_ecart_de nom_b) b ;;
  merged <- merge_inner col_code_article a b2 ;;
  m_code <- getitem col_code_article merged ;;
  m_des <- getitem col_designation merged ;;
  m_theo <- getitem col_stock_theorique merged ;;
  m_phys <- getitem col_stock_physique merged ;;
  m_ea <- getitem (col_ecart_de nom_a) merged ;;
  m_eb <- getitem (col_ecart_de nom_b) merged ;;
  let n := length m_code in
  let res := dataframe
    [ (col_agence, repeat (VCell (CStr nom_a)) n);
      (col_agence_comparee, repeat (VCell (CStr nom_b)) n);
      (col_code_article, m_code);
      (col_designation, m_des);
      (col_stock_theorique, m_theo);
      (col_stock_physique, m_phys);
      (col_ecart_de nom_a, m_ea);
      (col_ecart_de nom_b, m_eb) ] in
  eb <- getitem (col_ecart_de nom_b) res ;;
  ea <- getitem (col_ecart_de nom_a) res ;;
  let res := setitem col_ecart_des_2_agences (col_sub eb ea) res in
  ea <- getitem (col_ecart_de nom_a) res ;;
  eb <- getitem (col_ecart_de nom_b) res ;;
  let res := setitem col_somme_ecarts (col_add ea eb) res in
  sort_values_abs_desc col_somme_ecarts res.

(** Lines 177-202: an agency enters [agence_infos] when a file was given,
    its name is not blank and the file loads. *)
Definition agence_infos (slots : list (string * option uploaded))
  : list (string * list InvRow) :=
  flat_map (fun '(nom_agence, up) =>
    match up with
    | Some f =>
        if negb (String.eqb (Py.strip nom_agence) "") then
          match charger_inventaire f with
          | inr df_inv => [(Py.strip nom_agence, df_inv)]
          | inl _ => []
          end
        else []
    | None => []
    end) slots.

Definition enumerate {A} (l : list A) : list (nat * A) :=
  combine (seq 0 (length l)) l.

(** The inner loop (lines 216-226): the comparison with each other agency
    is written to the workbook of the reference under the cut name. *)
Fixpoint sheets_for (idx_ref : nat) (nom_ref : string) (df_ref : list InvRow)
    (others : list (nat * (string * list InvRow))) (writer : workbook)
  : exn + workbook :=
  match others with
  | [] => inr writer
  | (idx_other, (nom_other, df_other)) :: others' =>
      if Nat.eqb idx_other idx_ref
      then sheets_for idx_ref nom_ref df_ref others' writer
      else
        df_comp <- comparer_deux_agences nom_ref df_ref nom_other df_other ;;
        let sheet_name := nom_ref ++ "_vs_" ++ nom_other in
        let sheet_name := Py.slice_to 31 sheet_name in
        writer <- to_excel df_comp sheet_name writer ;;
        sheets_for idx_ref nom_ref df_ref others' writer
  end.

(** The outer loop (lines 213-235): one workbook per reference, offered for
    download once all its comparisons are written; the documents offered,
    and the exception that stopped the run, if any. *)
Fixpoint reports (refs all : list (nat * (string * list InvRow)))
  : list document * option exn :=
  match refs with
  | [] => ([], None)
  | (idx_ref, (nom_ref, df_ref)) :: refs' =>
      match sheets_for idx_ref nom_ref df_ref all [] with
      | inl e => ([], Some e)
      | inr writer =>
          let '(docs, stop) := reports refs' all in
          ({| file_name := "rapport_inventaire_" ++ nom_ref ++ ".xlsx";
              sheets := writer |} :: docs, stop)
      end
  end.

(** The handler of the button (lines 206-240). *)
Definition generer_rapports (infos : list (string * list InvRow)) : outcome :=
  if (length infos <? 2)%nat then Refused
  else
    match reports (enumerate infos) (enumerate infos) with
    | (docs, None) => Generated docs
    | (docs, Some e) => Aborted docs e
    end.

End Pipeline.

(** ** Vocabulary of the statements *)

(** The normalised row built from a raw row, given the positions of the
    five mapped columns. *)
Definition canonical_row (i0 i1 i2 i3 i4 : nat) (r : list cell) : InvRow :=
  {| code_article := CStr (Py.strip (astype_str (nth i0 r CNull)));
     designation := nth i1 r CNull;
     stock_theorique := coerce (nth i2 r CNull);
     stock_physique := coerce (nth i3 r CNull);
     ecart := coerce (nth i4 r CNull) |}.

(** The matched pairs of an inner join on the item code, following the
    words of the specification: every row of the reference with every row of the other table that
    carries the same item code, in the order of the reference. *)
Definition joined (df_a df_b : list InvRow) : list (InvRow * InvRow) :=
  flat_map (fun a =>
    map (fun b => (a, b))
        (List.filter (fun b => bool_decide (code_article a = code_article b)) df_b))
    df_a.

(** The eight columns of [res] before the derived columns are added, built
    from the matched pairs. *)
Definition base_frame (nom_a nom_b : string) (J : list (InvRow * InvRow)) : frame :=
  [ (col_agence, repeat (VCell (CStr nom_a)) (length J));
    (col_agence_comparee, repeat (VCell (CStr nom_b)) (length J));
    (col_code_article, map (fun p => VCell (code_article (fst p))) J);
    (col_designation, map (fun p => VCell (designation (fst p))) J);
    (col_stock_theorique, map (fun p => VNum (stock_theorique (fst p))) J);
    (col_stock_physique, map (fun p => VNum (stock_physique (fst p))) J);
    (col_ecart_de nom_a, map (fun p => VNum (ecart (fst p))) J);
    (col_ecart_de nom_b, map (fun p => VNum (ecart (snd p))) J) ].

(** The positions selected by the projection on the mapped labels. *)
Definition selected (cols : list string) (m : gmap Field string) : list nat :=
  flat_map (fun f => positions (label_of m f) cols 0) required_logical_cols.

(** The test of each branch of the if/elif chain on the lower-cased header. *)
Definition pattern_matches (f : Field) (cc : string) : bool :=
  match f with
  | CodeArticle => Py.contains pat_code_article cc
  | Designation => Py.contains pat_designation cc
  | StockTheorique => Py.contains pat_stock_theorique cc
  | StockPhysique => Py.contains pat_stock_physique cc
  | Ecart => Py.startswith cc pat_ecart
  end.

(** The scan step on header [col] gives [col] to field [f]. *)
Definition assigned (col_map : gmap Field string) (col : string) (f : Field) : Prop :=
  col_map !! f = None /\ scan_header col_map col !! f = Some col.

(** Field [g] is tested before field [f] in the chain. *)
Definition earlier (g f : Field) : Prop := (Field_to_nat g < Field_to_nat f)%nat.

(** Field [f] is still free and its pattern accepts the header. *)
Definition takes (col_map : gmap Field string) (col : string) (f : Field) : Prop :=
  pattern_matches f (col_clean col) = true /\ col_map !! f = None.

(** ** Sample inputs used by the examples *)

(** The header "Ecart" written with a capital E-acute (character 201). *)
Definition header_Ecart_accent : string := String "201" "cart".

Definition headers_accent : list string :=
  [col_code_article; col_designation; col_stock_theorique;
   col_stock_physique; header_Ecart_accent].

Definition csv_of (cols : list string) (data : list (list cell)) : uploaded :=
  {| name := "inventaire.csv";
     read_csv := inr {| columns := cols; rows := data |};
     read_excel := inl ReadError |}.

Definition headers_plain : list string :=
  [col_code_article; col_designation; col_stock_theorique;
   col_stock_physique; col_ecart].

(** Two data rows, the first with a blank (two spaces) item code. *)
Definition rows_blank_code : list (list cell) :=
  [ [CStr "  "; CStr "vis"; CStr "1"; CStr "2"; CStr "1"];
    [CStr "A1"; CStr "clou"; CStr "4"; CStr "4"; CStr "0"] ].

(** Inventory rows for the examples of comparisons. *)
Definition item (code : string) (e : option Q) : InvRow :=
  {| code_article := CStr code; designation := CStr "piece";
     stock_theorique := Some 10%Q; stock_physique := Some 10%Q; ecart := e |}.

(** Two tables whose sums of discrepancies are NaN, -5, 3 and -3. *)
Definition table_ref_ties : list InvRow :=
  [item "c0" None; item "c1" (Some (-2)%Q); item "c2" (Some 1%Q);
   item "c3" (Some (-1)%Q)].

Definition table_other_ties : list InvRow :=
  [item "c0" (Some 1%Q); item "c1" (Some (-3)%Q); item "c2" (Some 2%Q);
   item "c3" (Some (-2)%Q)].

(** Eighteen items, c00 to c17, on both sides; the sums of the two
    discrepancies of an item are 1, -2, 3, 1, -2, 3 and so on. *)
Definition table_ref_18 : list InvRow :=
  [item "c00" (Some 1%Q); item "c01" (Some (-1)%Q); item "c02" (Some 2%Q);
   item "c03" (Some 1%Q); item "c04" (Some (-1)%Q); item "c05" (Some 2%Q);
   item "c06" (Some 1%Q); item "c07" (Some (-1)%Q); item "c08" (Some 2%Q);
   item "c09" (Some 1%Q); item "c10" (Some (-1)%Q); item "c11" (Some 2%Q);
   item "c12" (Some 1%Q); item "c13" (Some (-1)%Q); item "c14" (Some 2%Q);
   item "c15" (Some 1%Q); item "c16" (Some (-1)%Q); item "c17" (Some 2%Q)].

Definition table_other_18 : list InvRow :=
  [item "c00" (Some 0%Q); item "c01" (Some (-1)%Q); item "c02" (Some 1%Q);
   item "c03" (Some 0%Q); item "c04" (Some (-1)%Q); item "c05" (Some 1%Q);
   item "c06" (Some 0%Q); item "c07" (Some (-1)%Q); item "c08" (Some 1%Q);
   item "c09" (Some 0%Q); item "c10" (Some (-1)%Q); item "c11" (Some 1%Q);
   item "c12" (Some 0%Q); item "c13" (Some (-1)%Q); item "c14" (Some 1%Q);
   item "c15" (Some 0%Q); item "c16" (Some (-1)%Q); item "c17" (Some 1%Q)].

(** Item codes A, A, B on the reference side and A, C on the other. *)
Definition table_AAB : list InvRow :=
  [item "A" (Some 1%Q); item "A" (Some 2%Q); item "B" (Some 3%Q)].

Definition table_AC : list InvRow :=
  [item "A" (Some 5%Q); item "C" (Some 7%Q)].

(** The table loaded from [rows_blank_code] under [headers_plain]. *)
Definition table_blank_code : list InvRow :=
  [ {| code_article := CStr ""; designation := CStr "vis";
       stock_theorique := Some 1%Q; stock_physique := Some 2%Q;
       ecart := Some 1%Q |};
    {| code_article := CStr "A1"; designation := CStr "clou";
       stock_theorique := Some 4%Q; stock_physique := Some 4%Q;
       ecart := Some 0%Q |} ].

(** ** Vocabulary of the proofs about numbers *)

(** The value of a run of decimal digits read after the value [acc]. *)
Fixpoint uint_value (u : Decimal.uint) (acc : Z) : Z :=
  match u with
  | Decimal.Nil => acc
  | Decimal.D0 u => uint_value u (10 * acc + 0)
  | Decimal.D1 u => uint_value u (10 * acc + 1)
  | Decimal.D2 u => uint_value u (10 * acc + 2)
  | Decimal.D3 u => uint_value u (10 * acc + 3)
  | Decimal.D4 u => uint_value u (10 * acc + 4)
  | Decimal.D5 u => uint_value u (10 * acc + 5)
  | Decimal.D6 u => uint_value u (10 * acc + 6)
  | Decimal.D7 u => uint_value u (10 * acc + 7)
  | Decimal.D8 u => uint_value u (10 * acc + 8)
  | Decimal.D9 u => uint_value u (10 * acc + 9)
  end%Z.

(** The text holds no non-breaking space, no space and no comma. *)
Fixpoint plain (s : string) : bool :=
  match s with
  | EmptyString => true
  | String c s' =>
      negb (Ascii.eqb c Py.nbsp) && negb (Ascii.eqb c " ")
      && negb (Ascii.eqb c ",") && plain s'
  end.

(** ** Vocabulary of the proofs about frames *)

(** Decides the comparisons of labels that computation settles. *)
Ltac eval_eqb :=
  repeat match goal with
  | |- context [String.eqb ?a ?b] =>
      let v := eval vm_compute in (String.eqb a b) in
      lazymatch v with
      | true => change (String.eqb a b) with true
      | false => change (String.eqb a b) with false
      end
  end.

Abbreviation codes df := (map (fun r => VCell (code_article r)) df) (only parsing).


(** A frame with every column reordered by an indexer. *)
Definition sorted_by (indexer : list nat) (df : frame) : frame :=
  map (fun '(l, c) => (l, take_idx indexer c)) df.

(** [res] once the column of the differences is set. *)
Definition res_net (nom_a nom_b : string) (J : list (InvRow * InvRow)) : frame :=
  setitem col_ecart_des_2_agences
    (col_sub (map (fun p => VNum (ecart (snd p))) J)
             (map (fun p => VNum (ecart (fst p))) J))
    (base_frame nom_a nom_b J).


(** Every column of the frame has [n] cells. *)
Definition all_length (n : nat) (df : frame) : Prop :=
  Forall (fun p => length (snd p) = n) df.

(** The names the handler gives to the sheets of the reference [nom_ref],
    one per other agency: the concatenation cut to 31 characters. *)
Definition sheet_names (nom_ref : string)
    (others : list (string * list InvRow)) : list string :=
  map (fun other => Py.slice_to 31 (nom_ref ++ "_vs_" ++ fst other)) others.

(** The name holds no character that the writer refuses and neither starts
    nor ends with an apostrophe. *)
Definition valid_sheetname (s : string) : bool :=
  negb (has_invalid_char s)
  && negb (Py.startswith s "'") && negb (endswith s "'").



(** A slot of the form yields an agency: a file was given, the name is not
    blank, and the file loads. *)
Definition valid_slot (slot : string * option uploaded) : bool :=
  match snd slot with
  | Some f =>
      negb (String.eqb (Py.strip (fst slot)) "")
      && match charger_inventaire f with inr _ => true | inl _ => false end
  | None => false
  end.

(** The documents offered for download at the end of a run. *)
Definition documents_of (o : outcome) : list document :=
  match o with
  | Refused => []
  | Generated docs => docs
  | Aborted docs _ => docs
  end.

(** Three agencies of which the first bears a name of 27 characters: the
    names of its two sheets are cut before the name of the other agency. *)
Definition agencies_long_reference : list (string * list InvRow) :=
  [("Agence-de-la-region-du-Nord", table_ref_ties); ("Lyon", table_other_ties);
   ("Paris", table_AC)].

(** Three agencies of which two bear names that differ by the case only. *)
Definition agencies_A_b_B : list (string * list InvRow) :=
  [("A", table_ref_ties); ("b", table_other_ties); ("B", table_AC)].


(** Three agencies whose sheet names are cut and yet differ. *)
Definition agencies_cut : list (string * list InvRow) :=
  [("Entrepot-central-de-Lyon", table_ref_ties); ("Nord", table_other_ties);
   ("Sud-Est-Marseille", table_AC)].

(** Three agencies for the examples of report generation. *)
Definition three_agencies : list (string * list InvRow) :=
  [("A", table_ref_ties); ("B", table_other_ties); ("C", table_AC)].

(** ** Further sample inputs *)

(** A header that the patterns of both stocks accept. *)
Definition header_two_stocks : string :=
  "stock physique / " ++ pat_stock_theorique.

(** ** Vocabulary of the further properties *)

(** The text is empty or starts with a character that is not a space. *)
Definition starts_clean (s : string) : bool :=
  match s with
  | EmptyString => true
  | String c _ => negb (Py.isspace c)
  end.

(** The character [c] does not occur in the text. *)
Fixpoint lacks (c : ascii) (s : string) : bool :=
  match s with
  | EmptyString => true
  | String d s' => negb (Ascii.eqb d c) && lacks c s'
  end.

(** Headers of which the last two are equal once cleaned: the second
    "Ecart" is followed by a non-breaking space. *)
Definition headers_twice_ecart : list string :=
  [col_code_article; col_designation; col_stock_theorique;
   col_stock_physique; col_ecart; String.append col_ecart (String Py.nbsp "")].

(** An agency name of 27 characters. *)
Definition long_name : string := "Agence-de-la-region-du-Nord".

(** ** The counter of agencies (lines 21-29)

    [st.session_state.nb_agences] is absent in a fresh session ([None]); a
    run of the script sets it to 2 when absent, adds one when the button
    "+ Ajouter une agence" was clicked, and shows that many slots. *)
Definition nb_agences_run (session : option nat) (clicked : bool) : nat :=
  let nb_agences := match session with None => 2%nat | Some n => n end in
  if clicked then (nb_agences + 1)%nat else nb_agences.

(** The counter after the successive runs of a session, each with or
    without a click. *)
Definition nb_agences_session (clicks : list bool) : option nat :=
  foldl (fun session clicked => Some (nb_agences_run session clicked))
        None clicks.

(** Slots for the examples: a valid one, one without a file. *)
Definition slot_ok (nom : string) : string * option uploaded :=
  (nom, Some (csv_of headers_plain rows_blank_code)).

Definition slot_no_file (nom : string) : string * option uploaded :=
  (nom, None).

(** Three agencies of which two bear the same name. *)
Definition agencies_A_B_B : list (string * list InvRow) :=
  [("A", table_AAB); ("B", table_AC); ("B", table_AAB)].

(** ** Vocabulary of the properties of the workbooks *)

(** A worksheet as the writer builds it: its name is not empty, has 31
    characters at most and is valid, and at least one frame was written. *)
Definition good_sheet (ws : string * list frame) : Prop :=
  fst ws <> "" /\ (String.length (fst ws) <= 31)%nat
  /\ valid_sheetname (fst ws) = true /\ snd ws <> [].

(** A workbook as the writer builds it: good worksheets whose names are
    pairwise different even with the case ignored. *)
Definition book_ok (W : workbook) : Prop :=
  NoDup (map Py.lower (map fst W)) /\ Forall good_sheet W.

(** The number of frames written to the worksheets of a workbook. *)
Definition nb_writes (W : workbook) : nat :=
  list_sum (map (fun ws => length (snd ws)) W).
(** * Properties *)

(** ** Column detection *)

Lemma not_in_true (f : Field) (m : gmap Field string) :
  not_in f m = true <-> m !! f = None.
Proof. unfold not_in. apply bool_decide_eq_true. Qed.

Lemma takes_test (m : gmap Field string) (col : string) (f : Field) :
  takes m col f <-> pattern_matches f (col_clean col) && not_in f m = true.
Proof.
  unfold takes. rewrite andb_true_iff, not_in_true. reflexivity.
Qed.

Lemma scan_header_cases (m : gmap Field string) (col : string) :
  (exists f, takes m col f /\ (forall g, earlier g f -> ~ takes m col g)
             /\ scan_header m col = <[f := col]> m)
  \/ ((forall g, ~ takes m col g) /\ scan_header m col = m).
Proof.
  pose (tk := fun f => pattern_matches f (col_clean col) && not_in f m).
  assert (Htk : forall f, takes m col f <-> tk f = true)
    by (intros f; apply takes_test).
  change (scan_header m col) with
    (if tk CodeArticle then <[CodeArticle := col]> m
     else if tk Designation then <[Designation := col]> m
     else if tk StockTheorique then <[StockTheorique := col]> m
     else if tk StockPhysique then <[StockPhysique := col]> m
     else if tk Ecart then <[Ecart := col]> m
     else m).
  destruct (tk CodeArticle) eqn:E1;
    [|destruct (tk Designation) eqn:E2;
      [|destruct (tk StockTheorique) eqn:E3;
        [|destruct (tk StockPhysique) eqn:E4;
          [|destruct (tk Ecart) eqn:E5]]]].
  1-5: left; eexists; split; [apply Htk; eassumption|];
       (split; [|reflexivity]);
       intros g Hg; rewrite Htk; destruct g; unfold earlier in Hg;
       simpl in Hg; try lia; congruence.
  right; split; [|reflexivity].
  intros g; rewrite Htk; destruct g; congruence.
Qed.

Lemma Field_to_nat_inj (f g : Field) : Field_to_nat f = Field_to_nat g -> f = g.
Proof. destruct f, g; simpl; congruence. Qed.

Lemma first_taker_unique (m : gmap Field string) (col : string) (f g : Field) :
  takes m col f -> (forall h, earlier h f -> ~ takes m col h) ->
  takes m col g -> (forall h, earlier h g -> ~ takes m col h) ->
  f = g.
Proof.
  intros Hf Hf' Hg Hg'.
  destruct (lt_eq_lt_dec (Field_to_nat f) (Field_to_nat g)) as [[Hlt|Heq]|Hlt].
  - exfalso. exact (Hg' f Hlt Hf).
  - by apply Field_to_nat_inj.
  - exfalso. exact (Hf' g Hlt Hg).
Qed.

Lemma assigned_iff_first (m : gmap Field string) (col : string) (f : Field) :
  assigned m col f <->
  takes m col f /\ (forall g, earlier g f -> ~ takes m col g).
Proof.
  unfold assigned.
  destruct (scan_header_cases m col) as [(f0 & Ht & Hfirst & ->)|[Hnone ->]].
  - split.
    + intros [Hfree Hget].
      destruct (decide (f0 = f)) as [<-|Hne]; [done|].
      rewrite lookup_insert_ne in Hget by done. congruence.
    + intros [Ht' Hfirst'].
      assert (f = f0) as -> by eauto using first_taker_unique.
      split; [apply Ht|apply lookup_insert_eq].
  - split.
    + intros [Hfree Hget]. congruence.
    + intros [Ht' _]. exfalso. exact (Hnone f Ht').
Qed.

(** C10: one scan step gives the header to at most one field; that field is
    the first one, in the order code article, designation, theoretical
    stock, physical stock, discrepancy, that is still free and whose pattern
    accepts the header; every other field keeps what it had. *)
Theorem scan_header_at_most_one_field (m : gmap Field string) (col : string) :
  (forall f g, assigned m col f -> assigned m col g -> f = g)
  /\ (forall f, assigned m col f <->
                takes m col f /\ (forall g, earlier g f -> ~ takes m col g))
  /\ (forall f, ~ assigned m col f -> scan_header m col !! f = m !! f)
  /\ map Field_to_nat required_logical_cols = [0; 1; 2; 3; 4]%nat.
Proof.
  split; [|split; [|split]].
  - intros f g Hf Hg. apply assigned_iff_first in Hf as [? ?].
    apply assigned_iff_first in Hg as [? ?]. eauto using first_taker_unique.
  - apply assigned_iff_first.
  - intros f Hf.
    destruct (scan_header_cases m col) as [(f0 & Ht & Hfirst & Heq)|[Hnone ->]];
      [|done].
    rewrite Heq. destruct (decide (f0 = f)) as [<-|Hne].
    + exfalso. apply Hf. apply assigned_iff_first. done.
    + by rewrite lookup_insert_ne.
  - reflexivity.
Qed.

Lemma lower_char_idem (c : ascii) : Py.lower_char (Py.lower_char c) = Py.lower_char c.
Proof. destruct c as [[] [] [] [] [] [] [] []]; reflexivity. Qed.

Lemma lower_idem (s : string) : Py.lower (Py.lower s) = Py.lower s.
Proof.
  induction s as [|c s IH]; simpl; [reflexivity|].
  by rewrite lower_char_idem, IH.
Qed.

Lemma earlier_Ecart (g : Field) : earlier g Ecart <-> g <> Ecart.
Proof. unfold earlier. destruct g; simpl; split; (lia || congruence). Qed.

(** C1 (amended): a header, cleaned as on line 49 (non-breaking spaces
    turned into spaces, then trimmed), is given to the discrepancy field
    exactly when its lower-cased text starts with "ecart", the discrepancy
    field is still free, and none of the four fields tested before it takes
    the header.  The prefix test does not depend on the case of the header;
    it is made on the accented text as it stands. *)
Theorem ecart_assignment (m : gmap Field string) (h : string) :
  (assigned m (clean_header h) Ecart <->
     Py.startswith (col_clean (clean_header h)) pat_ecart = true
     /\ m !! Ecart = None
     /\ (forall g, g <> Ecart -> ~ takes m (clean_header h) g))
  /\ Py.startswith (col_clean (Py.lower (clean_header h))) pat_ecart
     = Py.startswith (col_clean (clean_header h)) pat_ecart.
Proof.
  split.
  - rewrite assigned_iff_first. unfold takes at 1. cbn [pattern_matches].
    split.
    + intros [[Hp Hfree] Hfirst]. repeat split; [done..|].
      intros g Hg. apply Hfirst. by apply earlier_Ecart.
    + intros (Hp & Hfree & Hfirst). repeat split; [done..|].
      intros g Hg. apply Hfirst. by apply earlier_Ecart.
  - unfold col_clean. by rewrite lower_idem.
Qed.

(** C1, counterexample: the header "Ecart" written with a capital E-acute
    is not given to the discrepancy field, although every field is free, and
    a file whose discrepancy column is so labelled is rejected.  Besides, a
    header that starts with "ecart" is not given to the discrepancy field
    when an earlier field takes it, or when the discrepancy field already
    has a header. *)
Lemma ecart_accent_not_recognised :
  Py.startswith (col_clean (clean_header header_Ecart_accent)) pat_ecart = false
  /\ ~ assigned ∅ (clean_header header_Ecart_accent) Ecart
  /\ charger_inventaire (csv_of headers_accent [])
     = inl (SchemaMismatch [Ecart] headers_accent)
  /\ (Py.startswith (col_clean "Ecart stock physique") pat_ecart = true
      /\ assigned ∅ "Ecart stock physique" StockPhysique
      /\ ~ assigned ∅ "Ecart stock physique" Ecart)
  /\ (Py.startswith (col_clean "Ecart 2") pat_ecart = true
      /\ ~ assigned {[Ecart := "Ecart"]} "Ecart 2" Ecart).
Proof.
  split; [reflexivity|]. split; [|split; [|split]].
  - intros [_ H]. vm_compute in H. discriminate.
  - vm_compute. reflexivity.
  - split; [reflexivity|]. split.
    + split; vm_compute; reflexivity.
    + intros [_ H]. vm_compute in H. discriminate.
  - split; [reflexivity|]. intros [H _]. vm_compute in H. discriminate.
Qed.

(** ** Failure of the column detection *)

Lemma elem_of_required (f : Field) : f ∈ required_logical_cols.
Proof. unfold required_logical_cols. destruct f; set_solver. Qed.

Lemma elem_of_missing_of (m : gmap Field string) (f : Field) :
  f ∈ missing_of m <-> m !! f = None.
Proof.
  unfold missing_of. rewrite list_elem_of_filter.
  split; [by intros [? _]|]. intros H. split; [done|apply elem_of_required].
Qed.

Lemma missing_of_nil (m : gmap Field string) :
  missing_of m = [] <-> forall f, is_Some (m !! f).
Proof.
  split.
  - intros Hnil f. destruct (m !! f) eqn:E; [by eexists|].
    apply elem_of_missing_of in E. rewrite Hnil in E. by apply elem_of_nil in E.
  - intros Hall. destruct (missing_of m) as [|f l] eqn:E; [done|].
    assert (Hf : f ∈ missing_of m) by (rewrite E; left).
    apply elem_of_missing_of in Hf. destruct (Hall f) as [x Hx]. congruence.
Qed.

Lemma charger_inventaire_unfold (up : uploaded) (df : raw_frame) :
  read_frame up = inr df ->
  charger_inventaire up =
    match missing_of (scan_headers (map clean_header (columns df))) with
    | _ :: _ =>
        inl (SchemaMismatch
               (missing_of (scan_headers (map clean_header (columns df))))
               (map clean_header (columns df)))
    | [] =>
        df_inv <- project (map clean_header (columns df))
                    (scan_headers (map clean_header (columns df))) (rows df) ;;
        inr (map strip_code (dropna_code (map convert df_inv)))
    end.
Proof. intros H. unfold charger_inventaire. rewrite H. reflexivity. Qed.

Lemma project_not_schema (cols : list string) (m : gmap Field string)
    (data : list (list cell)) (k : list ProjRow -> exn + list InvRow)
    (missing : list Field) (found : list string) :
  (forall x, k x <> inl (SchemaMismatch missing found)) ->
  (df_inv <- project cols m data ;; k df_inv) <> inl (SchemaMismatch missing found).
Proof.
  intros Hk. unfold project.
  destruct (flat_map _ _) as [|i0 [|i1 [|i2 [|i3 [|i4 [|i5 l]]]]]];
    simpl; try discriminate. apply Hk.
Qed.

(** C6: once the file is read, the loader fails with the schema error
    exactly when some logical field is left without a header by the scan of
    all headers; the error carries the fields left without a header, in the
    order of the required list, and all the headers found; when the five
    fields have a header no schema error is raised. *)
Theorem schema_mismatch_iff (up : uploaded) (df : raw_frame) :
  read_frame up = inr df ->
  (forall f, f ∈ missing_of (scan_headers (map clean_header (columns df)))
             <-> scan_headers (map clean_header (columns df)) !! f = None)
  /\ ((exists f, scan_headers (map clean_header (columns df)) !! f = None) <->
      charger_inventaire up =
        inl (SchemaMismatch
               (missing_of (scan_headers (map clean_header (columns df))))
               (map clean_header (columns df))))
  /\ ((forall f, is_Some (scan_headers (map clean_header (columns df)) !! f)) ->
      forall missing found,
        charger_inventaire up <> inl (SchemaMismatch missing found)).
Proof.
  intros Hread. rewrite (charger_inventaire_unfold up df Hread).
  set (cols := map clean_header (columns df)). set (m := scan_headers cols).
  split; [apply elem_of_missing_of|]. split.
  - split.
    + intros [f Hf]. apply elem_of_missing_of in Hf.
      destruct (missing_of m) as [|g l] eqn:E; [by apply elem_of_nil in Hf|].
      reflexivity.
    + intros H. destruct (missing_of m) as [|g l] eqn:E.
      * exfalso. revert H. apply project_not_schema. discriminate.
      * exists g. apply elem_of_missing_of. rewrite E. left.
  - intros Hall missing found. apply missing_of_nil in Hall. rewrite Hall.
    apply project_not_schema. discriminate.
Qed.

(** The same on a file whose discrepancy header is not recognised. *)
Lemma schema_mismatch_iff_witness :
  read_frame (csv_of headers_accent [])
    = inr {| columns := headers_accent; rows := [] |}
  /\ ((exists f, scan_headers (map clean_header headers_accent) !! f = None) <->
      charger_inventaire (csv_of headers_accent []) =
        inl (SchemaMismatch
               (missing_of (scan_headers (map clean_header headers_accent)))
               (map clean_header headers_accent))).
Proof.
  split; [reflexivity|].
  exact (proj1 (proj2 (schema_mismatch_iff (csv_of headers_accent [])
                         {| columns := headers_accent; rows := [] |} eq_refl))).
Defined.

(** ** Numeric coercion *)

Lemma read_digits_string_of_uint (u : Decimal.uint) (acc : Z) (n : nat) :
  read_digits (NilEmpty.string_of_uint u) acc n
  = (uint_value u acc, (n + Decimal.nb_digits u)%nat, "").
Proof.
  revert acc n. induction u; intros acc n;
    cbn [NilEmpty.string_of_uint uint_value Decimal.nb_digits read_digits];
    try match goal with
        | |- context [digit_of ?c] =>
            let v := eval vm_compute in (digit_of c) in
            change (digit_of c) with v
        end;
    cbv iota; rewrite ?IHu; do 2 f_equal; lia.
Qed.

Lemma uint_value_pos (u : Decimal.uint) (acc : positive) :
  uint_value u (Zpos acc) = Zpos (Pos.of_uint_acc u acc).
Proof.
  revert acc. induction u; intros acc; simpl; [reflexivity|..];
    rewrite <- IHu; f_equal; lia.
Qed.

Lemma uint_value_0 (u : Decimal.uint) : uint_value u 0 = Z.of_uint u.
Proof.
  unfold Z.of_uint. induction u; simpl; try reflexivity; try exact IHu;
    apply (uint_value_pos u).
Qed.

Lemma replace_plain (s : string) :
  plain s = true ->
  Py.replace "," "." (Py.replace " " "" (Py.replace Py.nbsp "" s)) = s.
Proof.
  induction s as [|c s IH]; simpl; [reflexivity|].
  rewrite !andb_true_iff, !negb_true_iff. intros [[[H1 H2] H3] H4].
  rewrite H1. simpl. rewrite H2. simpl. rewrite H3. by rewrite IH.
Qed.

Lemma plain_string_of_uint (u : Decimal.uint) :
  plain (NilEmpty.string_of_uint u) = true.
Proof. induction u; simpl; done. Qed.

Lemma to_numeric_uint (u : Decimal.uint) :
  u <> Decimal.Nil ->
  to_numeric (NilEmpty.string_of_uint u) = Some (inject_Z (Z.of_uint u))
  /\ to_numeric (String "-" (NilEmpty.string_of_uint u))
     = Some (inject_Z (- Z.of_uint u)).
Proof.
  intros Hu.
  assert (Hs : read_sign (NilEmpty.string_of_uint u)
               = (false, NilEmpty.string_of_uint u))
    by (destruct u; [done|reflexivity..]).
  assert (Hn : (0 + Decimal.nb_digits u + 0 =? 0)%nat = false)
    by (destruct u; [done|reflexivity..]).
  assert (Hk : skip_spaces (NilEmpty.string_of_uint u)
               = NilEmpty.string_of_uint u)
    by (destruct u; reflexivity).
  unfold to_numeric. cbn [skip_spaces]. rewrite Hk, Hs.
  change (isspace_ascii "-") with false. cbv iota. cbn [read_sign].
  rewrite !read_digits_string_of_uint, Hn. cbn [read_exponent].
  rewrite uint_value_0. simpl. rewrite !Z.mul_1_r. done.
Qed.

Lemma str_of_Z_pos (p : positive) :
  str_of_Z (Zpos p) = NilEmpty.string_of_uint (Pos.to_uint p)
  /\ str_of_Z (Zneg p) = String "-" (NilEmpty.string_of_uint (Pos.to_uint p)).
Proof.
  unfold str_of_Z. simpl.
  pose proof (Unsigned.to_uint_nonnil p) as Hn.
  destruct (Pos.to_uint p); [done|by split..].
Qed.

Lemma coerce_int (z : Z) : coerce (CInt z) = Some (inject_Z z).
Proof.
  unfold coerce, astype_str.
  destruct z as [|p|p]; [reflexivity| |].
  - destruct (str_of_Z_pos p) as [-> _].
    rewrite replace_plain by apply plain_string_of_uint.
    destruct (to_numeric_uint (Pos.to_uint p)) as [-> _];
      [apply Unsigned.to_uint_nonnil|].
    unfold Z.of_uint. by rewrite Unsigned.of_to.
  - destruct (str_of_Z_pos p) as [_ ->].
    rewrite replace_plain
      by (simpl; apply plain_string_of_uint).
    destruct (to_numeric_uint (Pos.to_uint p)) as [_ ->];
      [apply Unsigned.to_uint_nonnil|].
    unfold Z.of_uint. by rewrite Unsigned.of_to.
Qed.

(** C4: the coercion applied to the three numeric columns reads "1 234,56",
    with a regular or a non-breaking space, as 1234.56, coerces "abc" to
    NaN, and reads the integer cell 7 as 7, as it reads every integer cell
    as its own value. *)
Theorem coerce_examples :
  coerce (CStr "1 234,56") = Some 1234.56%Q
  /\ coerce (CStr ("1" ++ String Py.nbsp "234,56")) = Some 1234.56%Q
  /\ coerce (CStr "abc") = None
  /\ coerce (CInt 7) = Some 7%Q
  /\ (forall z : Z, coerce (CInt z) = Some (inject_Z z))
  /\ (forall p : ProjRow,
        stock_theorique (convert p) = coerce (p_theo p)
        /\ stock_physique (convert p) = coerce (p_phys p)
        /\ ecart (convert p) = coerce (p_ecart p)).
Proof.
  split; [reflexivity|]. split; [reflexivity|]. split; [reflexivity|].
  split; [apply coerce_int|]. split; [apply coerce_int|].
  intros p. repeat split.
Qed.

(** ** Rows kept by the loader *)

Lemma filter_map_convert (l : list ProjRow) :
  dropna_code (map convert l)
  = map convert (List.filter (fun p => notna (p_code p)) l).
Proof.
  unfold dropna_code. induction l as [|p l IH]; simpl; [reflexivity|].
  destruct (notna (p_code p)); simpl; by rewrite IH.
Qed.

Lemma filter_map_project (i0 i1 i2 i3 i4 : nat) (data : list (list cell)) :
  List.filter (fun p => notna (p_code p))
    (map (fun r => {| p_code := nth i0 r CNull; p_desig := nth i1 r CNull;
                      p_theo := nth i2 r CNull; p_phys := nth i3 r CNull;
                      p_ecart := nth i4 r CNull |}) data)
  = map (fun r => {| p_code := nth i0 r CNull; p_desig := nth i1 r CNull;
                     p_theo := nth i2 r CNull; p_phys := nth i3 r CNull;
                     p_ecart := nth i4 r CNull |})
        (List.filter (fun r => notna (nth i0 r CNull)) data).
Proof.
  induction data as [|r data IH]; simpl; [reflexivity|].
  destruct (notna (nth i0 r CNull)); simpl; by rewrite IH.
Qed.

Lemma charger_inventaire_success (up : uploaded) (df : raw_frame)
    (out : list InvRow) :
  read_frame up = inr df ->
  charger_inventaire up = inr out ->
  exists i0 i1 i2 i3 i4,
    selected (map clean_header (columns df))
             (scan_headers (map clean_header (columns df)))
      = [i0; i1; i2; i3; i4]
    /\ out = map (canonical_row i0 i1 i2 i3 i4)
               (List.filter (fun r => notna (nth i0 r CNull)) (rows df)).
Proof.
  intros Hread. rewrite (charger_inventaire_unfold up df Hread).
  destruct (missing_of _); [|discriminate].
  unfold project. fold (selected (map clean_header (columns df))
                          (scan_headers (map clean_header (columns df)))).
  destruct (selected _ _) as [|i0 [|i1 [|i2 [|i3 [|i4 [|i5 l]]]]]];
    simpl; try discriminate.
  intros [= <-]. exists i0, i1, i2, i3, i4. split; [reflexivity|].
  rewrite filter_map_convert, filter_map_project, !map_map. reflexivity.
Qed.

(** C3 (amended): when the loader succeeds on a frame of N rows of which K
    have a non-null item code, its table has exactly K rows: the rows with a
    non-null item code, in their order, each normalised on its own; no row of
    the table has a null item code.  Rows whose item code is blank text are
    kept. *)
Theorem charger_inventaire_rows (up : uploaded) (df : raw_frame)
    (out : list InvRow) :
  read_frame up = inr df ->
  charger_inventaire up = inr out ->
  exists i0 i1 i2 i3 i4,
    selected (map clean_header (columns df))
             (scan_headers (map clean_header (columns df)))
      = [i0; i1; i2; i3; i4]
    /\ out = map (canonical_row i0 i1 i2 i3 i4)
               (List.filter (fun r => notna (nth i0 r CNull)) (rows df))
    /\ length out
       = length (List.filter (fun r => notna (nth i0 r CNull)) (rows df))
    /\ (length out <= length (rows df))%nat
    /\ Forall (fun r => notna (code_article r) = true) out.
Proof.
  intros Hread Hout.
  destruct (charger_inventaire_success up df out Hread Hout)
    as (i0 & i1 & i2 & i3 & i4 & Hsel & ->).
  exists i0, i1, i2, i3, i4. split; [done|]. split; [done|].
  rewrite length_map. split; [done|]. split.
  - apply List.filter_length_le.
  - apply Forall_forall. intros r Hr. apply list_elem_of_In in Hr.
    apply in_map_iff in Hr as (x & <- & _). reflexivity.
Qed.

(** The same on a file of two rows, the first with a blank item code. *)
Lemma charger_inventaire_rows_witness :
  read_frame (csv_of headers_plain rows_blank_code)
    = inr {| columns := headers_plain; rows := rows_blank_code |}
  /\ charger_inventaire (csv_of headers_plain rows_blank_code)
     = inr table_blank_code
  /\ exists i0 i1 i2 i3 i4,
       selected (map clean_header headers_plain)
                (scan_headers (map clean_header headers_plain))
         = [i0; i1; i2; i3; i4]
       /\ table_blank_code
          = map (canonical_row i0 i1 i2 i3 i4)
              (List.filter (fun r => notna (nth i0 r CNull)) rows_blank_code)
       /\ length table_blank_code
          = length (List.filter (fun r => notna (nth i0 r CNull)) rows_blank_code)
       /\ (length table_blank_code <= length rows_blank_code)%nat
       /\ Forall (fun r => notna (code_article r) = true) table_blank_code.
Proof.
  split; [reflexivity|]. split; [vm_compute; reflexivity|].
  exact (charger_inventaire_rows (csv_of headers_plain rows_blank_code)
           {| columns := headers_plain; rows := rows_blank_code |}
           table_blank_code eq_refl eq_refl).
Defined.

(** C3, counterexample: a row whose item code is blank text (two spaces) is
    not null, so it is kept, and its item code becomes the empty text: of
    the two rows of the file, one has a non-empty item code, and the table
    has two rows. *)
Lemma blank_code_is_kept :
  map (fun r => Py.strip (astype_str (nth 0 r CNull))) rows_blank_code
    = [""; "A1"]
  /\ exists out,
       charger_inventaire (csv_of headers_plain rows_blank_code) = inr out
       /\ length out = 2%nat
       /\ map code_article out = [CStr ""; CStr "A1"].
Proof.
  split; [reflexivity|].
  eexists. split; [vm_compute; reflexivity|]. split; reflexivity.
Qed.

(** ** Frames: reading and writing columns *)


Lemma col_ecart_de_eqb (x y : string) :
  String.eqb (col_ecart_de x) (col_ecart_de y) = String.eqb x y.
Proof. reflexivity. Qed.

(** Steps through the reads and writes of labelled columns. *)
Ltac frame_step :=
  repeat (progress (
    cbn [getitem setitem bind List.filter fst snd negb map app has_label labels
         existsb andb orb foldl dataframe];
    eval_eqb;
    rewrite ?col_ecart_de_eqb, ?String.eqb_refl;
    repeat match goal with H : String.eqb _ _ = _ |- _ => rewrite H end)).

Lemma getitem_setitem_eq (l : string) (c : list value) (df : frame) :
  getitem l (setitem l c df) = inr c.
Proof.
  induction df as [|[l' c'] df IH]; simpl.
  - by rewrite String.eqb_refl.
  - destruct (String.eqb l' l) eqn:E; simpl; rewrite E; [reflexivity|apply IH].
Qed.

Lemma getitem_setitem_ne (l l' : string) (c : list value) (df : frame) :
  String.eqb l' l = false ->
  getitem l (setitem l' c df) = getitem l df.
Proof.
  intros Hne. induction df as [|[l0 c0] df IH]; simpl.
  - by rewrite Hne.
  - destruct (String.eqb l0 l') eqn:E; simpl.
    + apply String.eqb_eq in E as ->. by rewrite Hne.
    + by rewrite IH.
Qed.

Lemma getitem_map_cols (f : list value -> list value) (l : string) (df : frame) :
  getitem l (map (fun '(l, c) => (l, f c)) df)
  = match getitem l df with inr c => inr (f c) | inl e => inl e end.
Proof.
  induction df as [|[l0 c0] df IH]; simpl; [reflexivity|].
  destruct (String.eqb l0 l); [reflexivity|apply IH].
Qed.

Lemma labels_setitem (l : string) (c : list value) (df : frame) :
  has_label l df = true -> labels (setitem l c df) = labels df.
Proof.
  unfold has_label, labels.
  induction df as [|[l0 c0] df IH]; simpl; [discriminate|].
  rewrite (String.eqb_sym l l0).
  destruct (String.eqb l0 l) eqn:E; simpl; [reflexivity|].
  intros H. by rewrite IH.
Qed.

Lemma renamed_frame (nom : string) (df : list InvRow) :
  rename col_ecart (col_ecart_de nom) (frame_of_inventaire df)
  = [ (col_code_article, map (fun r => VCell (code_article r)) df);
      (col_designation, map (fun r => VCell (designation r)) df);
      (col_stock_theorique, map (fun r => VNum (stock_theorique r)) df);
      (col_stock_physique, map (fun r => VNum (stock_physique r)) df);
      (col_ecart_de nom, map (fun r => VNum (ecart r)) df) ].
Proof. reflexivity. Qed.

(** ** The join indexers select the matched pairs *)

Lemma lookup_map {A B} (f : A -> B) (l : list A) (i : nat) :
  map f l !! i = f <$> l !! i.
Proof.
  revert i. induction l as [|x l IH]; intros [|i]; simpl; try reflexivity.
  apply IH.
Qed.

Lemma take_idx_map {A B} (f : A -> B) (ix : list nat) (l : list A) :
  take_idx ix (map f l) = map f (take_idx ix l).
Proof.
  induction ix as [|i ix IH]; simpl; [reflexivity|].
  rewrite lookup_map. destruct (l !! i); simpl; by rewrite IH.
Qed.

Lemma take_idx_app {A} (ix jx : list nat) (l : list A) :
  take_idx (ix ++ jx) l = (take_idx ix l ++ take_idx jx l)%list.
Proof.
  induction ix as [|i ix IH]; simpl; [reflexivity|].
  destruct (l !! i); simpl; by rewrite IH.
Qed.

Lemma take_idx_length_le {A} (ix : list nat) (l : list A) :
  (length (take_idx ix l) <= length ix)%nat.
Proof.
  induction ix as [|i ix IH]; simpl; [lia|].
  destruct (l !! i); simpl; lia.
Qed.


Lemma key_positions_take (k : cell) (df pre : list InvRow) :
  take_idx (key_positions (VCell k) (codes df) (length pre)) (pre ++ df)%list
  = List.filter (fun b => bool_decide (k = code_article b)) df.
Proof.
  revert pre. induction df as [|b df IH]; intros pre; simpl; [reflexivity|].
  assert (Hstep : forall ix,
    take_idx ix (pre ++ b :: df)%list = take_idx ix ((pre ++ [b]) ++ df)%list)
    by (intros ix; by rewrite <- app_assoc).
  specialize (IH (pre ++ [b])%list). rewrite length_app in IH. simpl in IH.
  replace (length pre + 1)%nat with (S (length pre)) in IH by lia.
  destruct (bool_decide (k = code_article b)).
  - simpl. rewrite list_lookup_middle by reflexivity.
    f_equal. by rewrite Hstep.
  - by rewrite Hstep.
Qed.

Lemma key_positions_take0 (k : cell) (df : list InvRow) :
  take_idx (key_positions (VCell k) (codes df) 0) df
  = List.filter (fun b => bool_decide (k = code_article b)) df.
Proof. exact (key_positions_take k df []). Qed.

Lemma key_positions_bound (k : value) (col : list value) (i j : nat) :
  In j (key_positions k col i) -> (i <= j < i + length col)%nat.
Proof.
  revert i. induction col as [|v col IH]; intros i; simpl; [tauto|].
  destruct (key_eqb k v); simpl.
  - intros [<-|H]; [lia|]. apply IH in H. lia.
  - intros H. apply IH in H. lia.
Qed.

Lemma take_idx_in_range_length {A} (ix : list nat) (l : list A) :
  (forall i, In i ix -> (i < length l)%nat) ->
  length (take_idx ix l) = length ix.
Proof.
  induction ix as [|i ix IH]; simpl; [reflexivity|].
  intros H. destruct (lookup_lt_is_Some_2 l i) as [x Hx]; [apply H; by left|].
  rewrite Hx. simpl. rewrite IH; [reflexivity|]. intros j Hj. apply H. by right.
Qed.

Lemma key_positions_length (k : cell) (df : list InvRow) :
  length (key_positions (VCell k) (codes df) 0)
  = length (List.filter (fun b => bool_decide (k = code_article b)) df).
Proof.
  rewrite <- key_positions_take0. symmetry. apply take_idx_in_range_length.
  intros i Hi. apply key_positions_bound in Hi.
  rewrite length_map in Hi. lia.
Qed.

Lemma take_idx_repeat {A} (i n : nat) (l : list A) (x : A) :
  l !! i = Some x -> take_idx (repeat i n) l = repeat x n.
Proof.
  intros H. induction n as [|n IH]; simpl; [reflexivity|].
  by rewrite H, IH.
Qed.

Lemma map_const_repeat {A B} (l : list A) (c : B) :
  map (fun _ => c) l = repeat c (length l).
Proof. induction l as [|x l IH]; simpl; by rewrite ?IH. Qed.

Lemma join_take_left (df_a df_b pre : list InvRow) :
  take_idx (map fst (join_indexers (codes df_a) (codes df_b) (length pre)))
           (pre ++ df_a)%list
  = map fst (joined df_a df_b).
Proof.
  revert pre. induction df_a as [|a df_a IH]; intros pre; simpl; [reflexivity|].
  rewrite !map_app, take_idx_app, !map_map. simpl.
  f_equal.
  - rewrite (map_const_repeat _ a), (map_const_repeat _ (length pre)).
    rewrite key_positions_length.
    apply take_idx_repeat. by rewrite list_lookup_middle.
  - specialize (IH (pre ++ [a])%list). rewrite length_app in IH. simpl in IH.
    replace (length pre + 1)%nat with (S (length pre)) in IH by lia.
    rewrite <- app_assoc in IH. exact IH.
Qed.

Lemma join_take_right (df_a df_b : list InvRow) (i : nat) :
  take_idx (map snd (join_indexers (codes df_a) (codes df_b) i)) df_b
  = map snd (joined df_a df_b).
Proof.
  revert i. induction df_a as [|a df_a IH]; intros i; simpl; [reflexivity|].
  rewrite !map_app, take_idx_app, !map_map. simpl.
  rewrite !map_id, IH. f_equal. apply key_positions_take0.
Qed.

Lemma join_take_left0 (df_a df_b : list InvRow) :
  take_idx (map fst (join_indexers (codes df_a) (codes df_b) 0)) df_a
  = map fst (joined df_a df_b).
Proof. exact (join_take_left df_a df_b []). Qed.

Lemma take_left_col (f : InvRow -> value) (df_a df_b : list InvRow) :
  take_idx (map fst (join_indexers (codes df_a) (codes df_b) 0)) (map f df_a)
  = map (fun p => f (fst p)) (joined df_a df_b).
Proof. by rewrite take_idx_map, join_take_left0, map_map. Qed.

Lemma take_right_col (f : InvRow -> value) (df_a df_b : list InvRow) :
  take_idx (map snd (join_indexers (codes df_a) (codes df_b) 0)) (map f df_b)
  = map (fun p => f (snd p)) (joined df_a df_b).
Proof. by rewrite take_idx_map, join_take_right, map_map. Qed.

Lemma merge_frames (nom_a nom_b : string) (df_a df_b : list InvRow) :
  String.eqb nom_a nom_b = false ->
  merge_inner col_code_article
    (rename col_ecart (col_ecart_de nom_a) (frame_of_inventaire df_a))
    [ (col_code_article, codes df_b);
      (col_ecart_de nom_b, map (fun r => VNum (ecart r)) df_b) ]
  = inr [ (col_code_article, map (fun p => VCell (code_article (fst p))) (joined df_a df_b));
          (col_designation, map (fun p => VCell (designation (fst p))) (joined df_a df_b));
          (col_stock_theorique, map (fun p => VNum (stock_theorique (fst p))) (joined df_a df_b));
          (col_stock_physique, map (fun p => VNum (stock_physique (fst p))) (joined df_a df_b));
          (col_ecart_de nom_a, map (fun p => VNum (ecart (fst p))) (joined df_a df_b));
          (col_ecart_de nom_b, map (fun p => VNum (ecart (snd p))) (joined df_a df_b)) ].
Proof.
  intros Hne. assert (Hne' : String.eqb nom_b nom_a = false) by (by rewrite String.eqb_sym).
  rewrite renamed_frame. unfold merge_inner.
  frame_step. rewrite ?Hne, ?Hne'. frame_step.
  rewrite !take_left_col, take_right_col.
  reflexivity.
Qed.

Lemma comparer_unfold argsort (nom_a nom_b : string) (df_a df_b : list InvRow) :
  String.eqb nom_a nom_b = false ->
  comparer_deux_agences argsort nom_a df_a nom_b df_b
  = (let J := joined df_a df_b in
     let res1 := setitem col_ecart_des_2_agences
                   (col_sub (map (fun p => VNum (ecart (snd p))) J)
                            (map (fun p => VNum (ecart (fst p))) J))
                   (base_frame nom_a nom_b J) in
     ea <- getitem (col_ecart_de nom_a) res1 ;;
     eb <- getitem (col_ecart_de nom_b) res1 ;;
     sort_values_abs_desc argsort col_somme_ecarts
       (setitem col_somme_ecarts (col_add ea eb) res1)).
Proof.
  intros Hne. assert (Hne' : String.eqb nom_b nom_a = false) by (by rewrite String.eqb_sym).
  unfold comparer_deux_agences.
  rewrite (renamed_frame nom_b). unfold select2. 
  cbn [getitem bind]. eval_eqb. rewrite String.eqb_refl. cbn [bind].
  rewrite (merge_frames nom_a nom_b df_a df_b Hne).
  cbv zeta. unfold base_frame. 
  frame_step. rewrite length_map.
  reflexivity.
Qed.

Lemma append_suffix_neqb (s : string) (c : ascii) (t : string) :
  String.eqb (String.append s (String c t)) s = false.
Proof.
  induction s as [|d s IH]; simpl; [reflexivity|].
  by rewrite Ascii.eqb_refl.
Qed.

Lemma comparer_same_name argsort (nom : string) (df_a df_b : list InvRow) :
  comparer_deux_agences argsort nom df_a nom df_b
  = inl (KeyError (col_ecart_de nom)).
Proof.
  unfold comparer_deux_agences.
  rewrite !renamed_frame. unfold select2, merge_inner.
  frame_step. rewrite !append_suffix_neqb. reflexivity.
Qed.

(** ** The sort indexer *)

Lemma take_idx_rev {A} (ix : list nat) (l : list A) :
  take_idx (rev ix) l = rev (take_idx ix l).
Proof.
  induction ix as [|i ix IH]; simpl; [reflexivity|].
  rewrite take_idx_app, IH. simpl.
  destruct (l !! i); simpl; [reflexivity|by rewrite app_nil_r].
Qed.

Lemma take_idx_Permutation {A} (ix jx : list nat) (l : list A) :
  Permutation ix jx -> Permutation (take_idx ix l) (take_idx jx l).
Proof.
  induction 1 as [|i ix jx _ IH|i j ix|ix jx kx _ IH1 _ IH2]; simpl.
  - reflexivity.
  - destruct (l !! i); [by constructor|done].
  - destruct (l !! i), (l !! j); try reflexivity. apply perm_swap.
  - by etransitivity.
Qed.

Lemma take_idx_seq {A} (pre l : list A) :
  take_idx (seq (length pre) (length l)) (pre ++ l)%list = l.
Proof.
  revert pre. induction l as [|x l IH]; intros pre; simpl; [reflexivity|].
  rewrite list_lookup_middle by reflexivity. f_equal.
  specialize (IH (pre ++ [x])%list). rewrite length_app in IH. simpl in IH.
  replace (length pre + 1)%nat with (S (length pre)) in IH by lia.
  by rewrite <- app_assoc in IH.
Qed.

Lemma take_idx_seq0 {A} (l : list A) : take_idx (seq 0 (length l)) l = l.
Proof. exact (take_idx_seq [] l). Qed.

Lemma take_idx_lookup {A} (ix : list nat) (l : list A) (k : nat) :
  (forall i, In i ix -> (i < length l)%nat) ->
  take_idx ix l !! k = ix !! k ≫= (l !!.).
Proof.
  revert k. induction ix as [|i ix IH]; intros k Hr; simpl; [reflexivity|].
  destruct (lookup_lt_is_Some_2 l i) as [x Hx]; [apply Hr; by left|].
  rewrite Hx. destruct k as [|k]; simpl; [by rewrite Hx|].
  apply IH. intros j Hj. apply Hr. by right.
Qed.

Lemma take_idx_take_idx {A} (sigma ix : list nat) (l : list A) :
  (forall i, In i ix -> (i < length l)%nat) ->
  take_idx (take_idx sigma ix) l = take_idx sigma (take_idx ix l).
Proof.
  intros Hr. induction sigma as [|k sigma IH]; simpl; [reflexivity|].
  rewrite (take_idx_lookup ix l k Hr).
  destruct (ix !! k) as [i|] eqn:E; simpl.
  - destruct (lookup_lt_is_Some_2 l i) as [x Hx].
    { apply Hr. apply list_elem_of_In. by eapply list_elem_of_lookup_2. }
    rewrite Hx. by rewrite IH.
  - exact IH.
Qed.

Lemma non_nans_from_take (items pre : list (option Q)) :
  take_idx (map fst (non_nans_from (length pre) items)) (pre ++ items)%list
  = map (fun p => Some (snd p)) (non_nans_from (length pre) items).
Proof.
  revert pre. induction items as [|[x|] items IH]; intros pre; simpl;
    [reflexivity| |].
  - rewrite list_lookup_middle by reflexivity. f_equal.
    specialize (IH (pre ++ [Some x])%list). rewrite length_app in IH.
    simpl in IH. replace (length pre + 1)%nat with (S (length pre)) in IH by lia.
    by rewrite <- app_assoc in IH.
  - specialize (IH (pre ++ [None])%list). rewrite length_app in IH.
    simpl in IH. replace (length pre + 1)%nat with (S (length pre)) in IH by lia.
    by rewrite <- app_assoc in IH.
Qed.

Lemma nans_from_take (items pre : list (option Q)) :
  take_idx (nans_from (length pre) items) (pre ++ items)%list
  = repeat None (length (nans_from (length pre) items)).
Proof.
  revert pre. induction items as [|[x|] items IH]; intros pre; simpl;
    [reflexivity| |].
  - specialize (IH (pre ++ [Some x])%list). rewrite length_app in IH.
    simpl in IH. replace (length pre + 1)%nat with (S (length pre)) in IH by lia.
    by rewrite <- app_assoc in IH.
  - rewrite list_lookup_middle by reflexivity. f_equal.
    specialize (IH (pre ++ [None])%list). rewrite length_app in IH.
    simpl in IH. replace (length pre + 1)%nat with (S (length pre)) in IH by lia.
    by rewrite <- app_assoc in IH.
Qed.

Lemma mask_Permutation (items : list (option Q)) (i : nat) :
  Permutation (map fst (non_nans_from i items) ++ nans_from i items)
              (seq i (length items)).
Proof.
  revert i. induction items as [|[x|] items IH]; intros i; simpl.
  - reflexivity.
  - constructor. apply IH.
  - rewrite <- Permutation_middle. constructor. apply IH.
Qed.

Lemma non_nans_from_bound (items : list (option Q)) (i j : nat) :
  In j (map fst (non_nans_from i items)) -> (i <= j < i + length items)%nat.
Proof.
  revert i. induction items as [|[x|] items IH]; intros i; simpl; [tauto| |].
  - intros [<-|H]; [lia|]. apply IH in H. lia.
  - intros H. apply IH in H. lia.
Qed.

Lemma non_nans_from_take0 (items : list (option Q)) :
  take_idx (map fst (non_nans_from 0 items)) items
  = map (fun p => Some (snd p)) (non_nans_from 0 items).
Proof. exact (non_nans_from_take items []). Qed.

Lemma nans_from_take0 (items : list (option Q)) :
  take_idx (nans_from 0 items) items
  = repeat None (length (nans_from 0 items)).
Proof. exact (nans_from_take items []). Qed.

Lemma nargsort_desc_keys (argsort : list Q -> list nat) (items : list (option Q)) :
  take_idx (nargsort_desc argsort items) items
  = (map Some (rev (take_idx (argsort (rev (map snd (non_nans_from 0 items))))
                             (rev (map snd (non_nans_from 0 items)))))
     ++ repeat None (length (nans_from 0 items)))%list.
Proof.
  unfold nargsort_desc.
  set (V := rev (map snd (non_nans_from 0 items))).
  rewrite take_idx_app, take_idx_rev, nans_from_take0. f_equal.
  rewrite take_idx_take_idx.
  - rewrite take_idx_rev, non_nans_from_take0.
    assert (rev (map (fun p : nat * Q => Some (snd p)) (non_nans_from 0 items))
            = map Some V) as ->.
    { unfold V. by rewrite <- (map_map snd Some), map_rev. }
    by rewrite take_idx_map, map_rev.
  - intros i Hi. apply in_rev in Hi. apply non_nans_from_bound in Hi. lia.
Qed.

Lemma nargsort_desc_Permutation (argsort : list Q -> list nat)
    (items : list (option Q)) :
  argsort_contract argsort ->
  Permutation (nargsort_desc argsort items) (seq 0 (length items)).
Proof.
  intros Hc. unfold nargsort_desc.
  rewrite <- (mask_Permutation items 0).
  apply Permutation_app_tail.
  rewrite <- Permutation_rev.
  destruct (Hc (rev (map snd (non_nans_from 0 items)))) as [Hp _].
  rewrite (take_idx_Permutation _ _ _ Hp).
  rewrite length_rev, length_map.
  replace (length (non_nans_from 0 items))
    with (length (rev (map fst (non_nans_from 0 items))))
    by (by rewrite length_rev, length_map).
  rewrite take_idx_seq0. symmetry. apply Permutation_rev.
Qed.

Lemma StronglySorted_snoc {A} (R : A -> A -> Prop) (l : list A) (x : A) :
  StronglySorted R l -> Forall (fun y => R y x) l ->
  StronglySorted R (l ++ [x]).
Proof.
  induction 1 as [|y l Hs IH Hy]; intros Hx; simpl.
  - repeat constructor.
  - inversion Hx; subst. constructor; [by apply IH|].
    apply Forall_app. split; [done|]. by constructor.
Qed.

Lemma StronglySorted_rev {A} (R : A -> A -> Prop) (l : list A) :
  StronglySorted R l -> StronglySorted (fun x y => R y x) (rev l).
Proof.
  induction 1 as [|y l Hs IH Hy]; simpl; [constructor|].
  apply StronglySorted_snoc; [done|].
  apply Forall_forall. intros z Hz. apply list_elem_of_In, in_rev in Hz.
  revert z Hz. apply List.Forall_forall. by apply Forall_forall, Forall_forall.
Qed.

Lemma StronglySorted_map_inv {A B} (R : B -> B -> Prop) (f : A -> B) (l : list A) :
  StronglySorted R (map f l) -> StronglySorted (fun x y => R (f x) (f y)) l.
Proof.
  induction l as [|x l IH]; simpl; intros H; [constructor|].
  inversion H as [|? ? Hs Hall]; subst. constructor; [by apply IH|].
  apply Forall_forall. intros y Hy.
  rewrite List.Forall_forall in Hall. apply Hall.
  apply in_map. by apply list_elem_of_In.
Qed.

Lemma abs_keys_lift (N : list (option Q)) (D : list Q) (k : nat) :
  map (fmap Qabs) N = (map Some D ++ repeat None k)%list ->
  exists d, N = (map Some d ++ repeat None k)%list /\ map Qabs d = D.
Proof.
  revert N. induction D as [|x D IH]; intros N; simpl.
  - revert N. induction k as [|k IHk]; intros [|[y|] N]; simpl; try discriminate.
    + intros _. by exists [].
    + intros [= H]. destruct (IHk N H) as (d & -> & Hd).
      destruct d; [|discriminate]. by exists [].
  - destruct N as [|[y|] N]; simpl; try discriminate.
    intros [= <- H]. destruct (IH N H) as (d & -> & <-).
    by exists (y :: d).
Qed.

(** ** The result of the comparison *)


Lemma getitem_sorted_by (indexer : list nat) (l : string) (df : frame) :
  getitem l (sorted_by indexer df)
  = match getitem l df with inr c => inr (take_idx indexer c) | inl e => inl e end.
Proof. apply (getitem_map_cols (take_idx indexer)). Qed.

Lemma getitem_setitem_is_inr (l l' : string) (c c0 : list value) (df : frame) :
  getitem l df = inr c0 -> exists c1, getitem l (setitem l' c df) = inr c1.
Proof.
  intros H. destruct (String.eqb l' l) eqn:E.
  - apply String.eqb_eq in E as ->. exists c. apply getitem_setitem_eq.
  - exists c0. by rewrite getitem_setitem_ne.
Qed.


Lemma comparer_inr (argsort : list Q -> list nat) (nom_a nom_b : string)
    (df_a df_b : list InvRow) :
  String.eqb nom_a nom_b = false ->
  exists ea eb,
    getitem (col_ecart_de nom_a) (res_net nom_a nom_b (joined df_a df_b)) = inr ea
    /\ getitem (col_ecart_de nom_b) (res_net nom_a nom_b (joined df_a df_b)) = inr eb
    /\ comparer_deux_agences argsort nom_a df_a nom_b df_b
       = inr (sorted_by (nargsort_desc argsort (col_abs (col_add ea eb)))
                (setitem col_somme_ecarts (col_add ea eb)
                   (res_net nom_a nom_b (joined df_a df_b)))).
Proof.
  intros Hne. assert (Hne' : String.eqb nom_b nom_a = false)
    by (by rewrite String.eqb_sym).
  rewrite (comparer_unfold argsort nom_a nom_b df_a df_b Hne). cbv zeta.
  fold (res_net nom_a nom_b (joined df_a df_b)).
  destruct (getitem_setitem_is_inr (col_ecart_de nom_a) col_ecart_des_2_agences
    (col_sub (map (fun p => VNum (ecart (snd p))) (joined df_a df_b))
             (map (fun p => VNum (ecart (fst p))) (joined df_a df_b)))
    (map (fun p => VNum (ecart (fst p))) (joined df_a df_b))
    (base_frame nom_a nom_b (joined df_a df_b))) as [ea Hea].
  { unfold base_frame. frame_step. reflexivity. }
  destruct (getitem_setitem_is_inr (col_ecart_de nom_b) col_ecart_des_2_agences
    (col_sub (map (fun p => VNum (ecart (snd p))) (joined df_a df_b))
             (map (fun p => VNum (ecart (fst p))) (joined df_a df_b)))
    (map (fun p => VNum (ecart (snd p))) (joined df_a df_b))
    (base_frame nom_a nom_b (joined df_a df_b))) as [eb Heb].
  { unfold base_frame. frame_step. reflexivity. }
  fold (res_net nom_a nom_b (joined df_a df_b)) in Hea, Heb.
  exists ea, eb. split; [done|]. split; [done|].
  rewrite Hea, Heb. cbn [bind]. unfold sort_values_abs_desc.
  rewrite getitem_setitem_eq. reflexivity.
Qed.

(** ** The insertion kernel meets the contract of [argsort] *)

Lemma insert_idx_Permutation (before : nat -> nat -> bool) (i : nat) (l : list nat) :
  Permutation (insert_idx before i l) (i :: l).
Proof.
  induction l as [|j l IH]; simpl; [reflexivity|].
  destruct (before i j); [reflexivity|].
  rewrite IH. apply perm_swap.
Qed.

Lemma foldr_insert_idx_Permutation (before : nat -> nat -> bool) (l : list nat) :
  Permutation (foldr (insert_idx before) [] l) l.
Proof.
  induction l as [|i l IH]; simpl; [reflexivity|].
  rewrite insert_idx_Permutation. by constructor.
Qed.

Section InsertionSorted.

Variable R : nat -> nat -> Prop.
Variable before : nat -> nat -> bool.
Hypothesis R_trans : forall i j k, R i j -> R j k -> R i k.
Hypothesis before_true : forall i j, before i j = true -> R i j.
Hypothesis before_false : forall i j, before i j = false -> R j i.

Lemma insert_idx_sorted (i : nat) (l : list nat) :
  StronglySorted R l -> StronglySorted R (insert_idx before i l).
Proof using R_trans before_true before_false.
  induction 1 as [|j l Hs IH Hj]; simpl; [repeat constructor|].
  destruct (before i j) eqn:E.
  - constructor; [by constructor|].
    constructor; [by apply before_true|].
    rewrite List.Forall_forall in Hj. apply List.Forall_forall.
    intros x Hx. eapply R_trans; [by apply before_true|]. by apply Hj.
  - constructor; [exact IH|].
    apply List.Forall_forall. intros x Hx.
    apply (Permutation_in _ (insert_idx_Permutation before i l)) in Hx.
    destruct Hx as [<-|Hx]; [by apply before_false|].
    rewrite List.Forall_forall in Hj. by apply Hj.
Qed.

Lemma foldr_insert_idx_sorted (l : list nat) :
  StronglySorted R (foldr (insert_idx before) [] l).
Proof using R_trans before_true before_false.
  induction l as [|i l IH]; simpl; [constructor|].
  by apply insert_idx_sorted.
Qed.

End InsertionSorted.

Lemma take_idx_key_at (ks : list Q) (ix : list nat) :
  (forall i, In i ix -> (i < length ks)%nat) ->
  take_idx ix ks = map (key_at ks) ix.
Proof.
  induction ix as [|i ix IH]; intros Hr; simpl; [reflexivity|].
  destruct (lookup_lt_is_Some_2 ks i) as [x Hx]; [apply Hr; by left|].
  rewrite Hx. unfold key_at at 1.
  rewrite (nth_lookup_Some _ _ _ _ Hx). f_equal.
  apply IH. intros j Hj. apply Hr. by right.
Qed.

Lemma StronglySorted_map {A B} (R : B -> B -> Prop) (f : A -> B) (l : list A) :
  StronglySorted (fun x y => R (f x) (f y)) l -> StronglySorted R (map f l).
Proof.
  induction 1 as [|x l Hs IH Hx]; simpl; constructor; [done|].
  apply List.Forall_forall. intros y Hy. apply in_map_iff in Hy as (z & <- & Hz).
  rewrite List.Forall_forall in Hx. by apply Hx.
Qed.

Lemma contract_of_insertion (before : list Q -> nat -> nat -> bool) :
  (forall ks i j, before ks i j = true -> (key_at ks i <= key_at ks j)%Q) ->
  (forall ks i j, before ks i j = false -> (key_at ks j <= key_at ks i)%Q) ->
  argsort_contract
    (fun ks => foldr (insert_idx (before ks)) [] (seq 0 (length ks))).
Proof.
  intros Ht Hf ks. split; [apply foldr_insert_idx_Permutation|].
  rewrite take_idx_key_at.
  - apply StronglySorted_map.
    apply (foldr_insert_idx_sorted _ (before ks)); [|apply Ht|apply Hf].
    intros i j k. apply Qle_trans.
  - intros i Hi.
    apply (Permutation_in _ (foldr_insert_idx_Permutation (before ks) _)) in Hi.
    apply in_seq in Hi. lia.
Qed.

Lemma argsort_stable_contract : argsort_contract argsort_stable.
Proof.
  apply (contract_of_insertion
           (fun ks i j => Qle_bool (key_at ks i) (key_at ks j))).
  - intros ks i j H. by apply Qle_bool_iff.
  - intros ks i j H. apply Qlt_le_weak, Qnot_le_lt.
    intros Hle. apply Qle_bool_iff in Hle. congruence.
Qed.

(** ** Order of the rows of a comparison *)

Lemma comparer_somme (argsort : list Q -> list nat) (nom_a nom_b : string)
    (df_a df_b : list InvRow) (res : frame) :
  comparer_deux_agences argsort nom_a df_a nom_b df_b = inr res ->
  exists s0,
    getitem col_somme_ecarts res
    = inr (take_idx (nargsort_desc argsort (col_abs s0)) s0).
Proof.
  destruct (String.eqb nom_a nom_b) eqn:Hne.
  - apply String.eqb_eq in Hne as ->. by rewrite comparer_same_name.
  - destruct (comparer_inr argsort nom_a nom_b df_a df_b Hne)
      as (ea & eb & _ & _ & Hcmp).
    intros Hres. rewrite Hcmp in Hres.
    assert (res = sorted_by (nargsort_desc argsort (col_abs (col_add ea eb)))
                    (setitem col_somme_ecarts (col_add ea eb)
                       (res_net nom_a nom_b (joined df_a df_b)))) as ->
      by congruence.
    exists (col_add ea eb).
    by rewrite getitem_sorted_by, getitem_setitem_eq.
Qed.

(** C2 (amended): for two agencies of different names, and whatever kernel
    meets the contract of [argsort], the comparison returns a frame whose
    column of sums reads: first the sums that are not NaN, by descending
    absolute value, then the NaN sums.  Nothing is said of the order of two
    rows whose sums have the same absolute value. *)
Theorem somme_ecarts_sorted (argsort : list Q -> list nat)
    (nom_a nom_b : string) (df_a df_b : list InvRow) :
  argsort_contract argsort ->
  nom_a <> nom_b ->
  exists (res : frame) (s : list value) (d : list Q) (k : nat),
    comparer_deux_agences argsort nom_a df_a nom_b df_b = inr res
    /\ getitem col_somme_ecarts res = inr s
    /\ map num_of s = (map Some d ++ repeat None k)%list
    /\ StronglySorted (fun x y => (Qabs y <= Qabs x)%Q) d.
Proof.
  intros Hc Hne. apply String.eqb_neq in Hne.
  destruct (comparer_inr argsort nom_a nom_b df_a df_b Hne)
    as (ea & eb & _ & _ & Hres).
  eexists. 
  destruct (comparer_somme argsort nom_a nom_b df_a df_b _ Hres) as [s0 Hs].
  destruct (abs_keys_lift
              (map num_of (take_idx (nargsort_desc argsort (col_abs s0)) s0))
              (rev (take_idx (argsort (rev (map snd (non_nans_from 0 (col_abs s0)))))
                             (rev (map snd (non_nans_from 0 (col_abs s0))))))
              (length (nans_from 0 (col_abs s0)))) as (d & Hd & Habs).
  { rewrite <- nargsort_desc_keys. unfold col_abs.
    by rewrite map_map, take_idx_map. }
  exists (take_idx (nargsort_desc argsort (col_abs s0)) s0), d,
         (length (nans_from 0 (col_abs s0))).
  split; [exact Hres|]. split; [done|]. split; [done|].
  apply (StronglySorted_map_inv (fun x y => (y <= x)%Q) Qabs). rewrite Habs.
  apply (StronglySorted_rev Qle). apply Hc.
Qed.

(** The same with the kernel that keeps ties in order, on two tables of
    four items. *)
Lemma somme_ecarts_sorted_witness :
  argsort_contract argsort_stable
  /\ "A" <> "B"
  /\ exists (res : frame) (s : list value) (d : list Q) (k : nat),
       comparer_deux_agences argsort_stable "A" table_ref_ties
                             "B" table_other_ties = inr res
       /\ getitem col_somme_ecarts res = inr s
       /\ map num_of s = (map Some d ++ repeat None k)%list
       /\ StronglySorted (fun x y => (Qabs y <= Qabs x)%Q) d.
Proof.
  split; [exact argsort_stable_contract|]. split; [discriminate|].
  apply somme_ecarts_sorted; [exact argsort_stable_contract|discriminate].
Defined.

(** On the tables of four items used by the examples, the quicksort kernel
    of numpy, which sorts 17 keys or fewer by insertion, and the insertion
    kernel give the same comparison. *)
Example same_comparison_on_small_tables :
  comparer_deux_agences Npy.argsort "A" table_ref_ties "B" table_other_ties
  = comparer_deux_agences argsort_stable "A" table_ref_ties "B" table_other_ties
  /\ comparer_deux_agences Npy.argsort "Nord" table_AAB "Sud" table_AC
     = comparer_deux_agences argsort_stable "Nord" table_AAB "Sud" table_AC.
Proof. split; vm_compute; reflexivity. Qed.

(** C2, counterexample: eighteen items enter the sort in the order c00 to
    c17 with the sums 1, -2, 3, 1, -2, 3, ...; with the quicksort kernel of
    numpy the result is sorted by descending absolute sum, but its rows are
    not in the one order that keeps the rows of equal absolute sum in their
    input order (c02, c05, ..., c17, then c01, c04, ..., c16, then c00, c03,
    ..., c15). *)
Lemma ties_not_kept_in_order :
  map (fun p => code_article (fst p)) (joined table_ref_18 table_other_18)
  = map CStr
      ["c00"; "c01"; "c02"; "c03"; "c04"; "c05";
       "c06"; "c07"; "c08"; "c09"; "c10"; "c11";
       "c12"; "c13"; "c14"; "c15"; "c16"; "c17"]
  /\ exists res codes,
       comparer_deux_agences Npy.argsort "A" table_ref_18 "B" table_other_18
       = inr res
       /\ getitem col_somme_ecarts res
          = inr (map (fun x => VNum (Some x))
                     (repeat 3%Q 6 ++ repeat (-2)%Q 6 ++ repeat 1%Q 6)%list)
       /\ getitem col_code_article res = inr codes
       /\ codes
          <> map (fun c => VCell (CStr c))
               ["c02"; "c05"; "c08"; "c11"; "c14"; "c17";
                "c01"; "c04"; "c07"; "c10"; "c13"; "c16";
                "c00"; "c03"; "c06"; "c09"; "c12"; "c15"].
Proof.
  split; [reflexivity|].
  eexists. eexists. split; [vm_compute; reflexivity|].
  split; [reflexivity|]. split; [reflexivity|]. discriminate.
Qed.

(** ** The rows of a comparison are the inner join *)


Lemma all_length_setitem (n : nat) (l : string) (c : list value) (df : frame) :
  length c = n -> all_length n df -> all_length n (setitem l c df).
Proof.
  intros Hc. induction 1 as [|[l0 c0] df H0 Hdf IH]; simpl.
  - by repeat constructor.
  - destruct (String.eqb l0 l); constructor; done.
Qed.

Lemma all_length_getitem (n : nat) (l : string) (c : list value) (df : frame) :
  all_length n df -> getitem l df = inr c -> length c = n.
Proof.
  induction 1 as [|[l0 c0] df H0 Hdf IH]; simpl; [discriminate|].
  destruct (String.eqb l0 l); [|done]. by intros [= <-].
Qed.

Lemma col_sub_length (x y : list value) :
  length x = length y -> length (col_sub x y) = length x.
Proof. intros H. unfold col_sub. rewrite length_zip_with. lia. Qed.

Lemma col_add_length (x y : list value) :
  length x = length y -> length (col_add x y) = length x.
Proof. intros H. unfold col_add. rewrite length_zip_with. lia. Qed.

Lemma all_length_res_net (nom_a nom_b : string) (J : list (InvRow * InvRow)) :
  all_length (length J) (res_net nom_a nom_b J).
Proof.
  unfold res_net. apply all_length_setitem.
  - rewrite col_sub_length; by rewrite !length_map.
  - unfold base_frame, all_length.
    repeat constructor; simpl; by rewrite ?repeat_length, ?length_map.
Qed.

Lemma in_joined (df_a df_b : list InvRow) (p : InvRow * InvRow) :
  In p (joined df_a df_b) <->
  In (fst p) df_a /\ In (snd p) df_b /\ code_article (fst p) = code_article (snd p).
Proof.
  unfold joined. rewrite in_flat_map. split.
  - intros (a & Ha & Hp). apply in_map_iff in Hp as (b & <- & Hb).
    apply filter_In in Hb as [Hb Heq]. apply bool_decide_eq_true in Heq.
    simpl. done.
  - intros (Ha & Hb & Heq). exists (fst p). split; [done|].
    apply in_map_iff. exists (snd p). split; [by destruct p|].
    apply filter_In. split; [done|]. by apply bool_decide_eq_true.
Qed.

Lemma comparer_rows (argsort : list Q -> list nat) (nom_a nom_b : string)
    (df_a df_b : list InvRow) :
  argsort_contract argsort ->
  String.eqb nom_a nom_b = false ->
  exists res ea eb indexer,
    comparer_deux_agences argsort nom_a df_a nom_b df_b = inr res
    /\ getitem (col_ecart_de nom_a) (res_net nom_a nom_b (joined df_a df_b)) = inr ea
    /\ getitem (col_ecart_de nom_b) (res_net nom_a nom_b (joined df_a df_b)) = inr eb
    /\ res = sorted_by indexer
               (setitem col_somme_ecarts (col_add ea eb)
                  (res_net nom_a nom_b (joined df_a df_b)))
    /\ Permutation (take_idx indexer (joined df_a df_b)) (joined df_a df_b).
Proof.
  intros Hc Hne.
  destruct (comparer_inr argsort nom_a nom_b df_a df_b Hne)
    as (ea & eb & Hea & Heb & Hres).
  eexists _, ea, eb, _. split; [exact Hres|]. split; [done|]. split; [done|].
  split; [reflexivity|].
  pose proof (all_length_res_net nom_a nom_b (joined df_a df_b)) as Hall.
  pose proof (all_length_getitem _ _ _ _ Hall Hea) as Hla.
  pose proof (all_length_getitem _ _ _ _ Hall Heb) as Hlb.
  rewrite (take_idx_Permutation _ _ _
             (nargsort_desc_Permutation argsort _ Hc)).
  unfold col_abs. rewrite length_map, col_add_length, Hla by congruence.
  by rewrite take_idx_seq0.
Qed.

Lemma length_joined (df_a df_b : list InvRow) :
  length (joined df_a df_b)
  = list_sum (map (fun a => length (List.filter
       (fun b => bool_decide (code_article a = code_article b)) df_b)) df_a).
Proof.
  unfold joined. induction df_a as [|a df_a IH]; simpl; [reflexivity|].
  by rewrite length_app, length_map, IH.
Qed.

Ltac reference_column :=
  rewrite getitem_sorted_by, getitem_setitem_ne by reflexivity;
  unfold res_net; rewrite getitem_setitem_ne by reflexivity;
  unfold base_frame; frame_step; by rewrite take_idx_map.

(** C5: for two agencies of different names, and whatever kernel meets the
    contract of [argsort], the rows of the comparison are, up to their order,
    the matched pairs of the inner join on the item code: one row for every
    row of the reference and every row of the other table with the same item
    code, so that an item code appears exactly when both tables carry it and
    duplicates fan out; the item code, the designation and the two stocks of
    a row are those of its reference row. *)
Theorem comparer_inner_join (argsort : list Q -> list nat)
    (nom_a nom_b : string) (df_a df_b : list InvRow) :
  argsort_contract argsort ->
  nom_a <> nom_b ->
  exists (res : frame) (J : list (InvRow * InvRow)),
    comparer_deux_agences argsort nom_a df_a nom_b df_b = inr res
    /\ Permutation J (joined df_a df_b)
    /\ getitem col_code_article res
       = inr (map (fun p => VCell (code_article (fst p))) J)
    /\ getitem col_designation res
       = inr (map (fun p => VCell (designation (fst p))) J)
    /\ getitem col_stock_theorique res
       = inr (map (fun p => VNum (stock_theorique (fst p))) J)
    /\ getitem col_stock_physique res
       = inr (map (fun p => VNum (stock_physique (fst p))) J)
    /\ (forall p, In p J <->
          In (fst p) df_a /\ In (snd p) df_b
          /\ code_article (fst p) = code_article (snd p))
    /\ length J
       = list_sum (map (fun a => length (List.filter
           (fun b => bool_decide (code_article a = code_article b)) df_b)) df_a).
Proof.
  intros Hc Hne. apply String.eqb_neq in Hne.
  assert (Hne' : String.eqb nom_b nom_a = false)
    by (by rewrite String.eqb_sym).
  destruct (comparer_rows argsort nom_a nom_b df_a df_b Hc Hne)
    as (res & ea & eb & indexer & Hres & _ & _ & -> & Hperm).
  exists (sorted_by indexer (setitem col_somme_ecarts (col_add ea eb)
            (res_net nom_a nom_b (joined df_a df_b)))),
         (take_idx indexer (joined df_a df_b)).
  split; [exact Hres|]. split; [exact Hperm|].
  split; [reference_column|]. split; [reference_column|].
  split; [reference_column|]. split; [reference_column|].
  split.
  - intros p. rewrite <- in_joined. split; apply Permutation_in; [done|].
    by symmetry.
  - rewrite <- length_joined. by apply Permutation_length.
Qed.

(** The same on item codes A, A, B against A, C: two rows. *)
Lemma comparer_inner_join_witness :
  argsort_contract argsort_stable
  /\ "Nord" <> "Sud"
  /\ exists (res : frame) (J : list (InvRow * InvRow)),
       comparer_deux_agences argsort_stable "Nord" table_AAB "Sud" table_AC
         = inr res
       /\ Permutation J (joined table_AAB table_AC)
       /\ getitem col_code_article res
          = inr (map (fun p => VCell (code_article (fst p))) J)
       /\ getitem col_designation res
          = inr (map (fun p => VCell (designation (fst p))) J)
       /\ getitem col_stock_theorique res
          = inr (map (fun p => VNum (stock_theorique (fst p))) J)
       /\ getitem col_stock_physique res
          = inr (map (fun p => VNum (stock_physique (fst p))) J)
       /\ (forall p, In p J <->
             In (fst p) table_AAB /\ In (snd p) table_AC
             /\ code_article (fst p) = code_article (snd p))
       /\ length J = 2%nat.
Proof.
  split; [exact argsort_stable_contract|]. split; [discriminate|].
  exact (comparer_inner_join argsort_stable "Nord" "Sud" table_AAB table_AC
           argsort_stable_contract ltac:(discriminate)).
Defined.

(** ** The derived columns *)

Lemma zip_with_map_same {A B C D} (h : B -> C -> D) (f : A -> B) (g : A -> C)
    (l : list A) :
  zip_with h (map f l) (map g l) = map (fun x => h (f x) (g x)) l.
Proof. induction l as [|x l IH]; simpl; by rewrite ?IH. Qed.

Lemma col_ecart_de_reserved (x : string) :
  String.eqb (col_ecart_de x) col_ecart_des_2_agences
  = String.eqb x "des_2_agences".
Proof. reflexivity. Qed.

Lemma reserved_col_ecart_de (x : string) :
  String.eqb col_ecart_des_2_agences (col_ecart_de x)
  = String.eqb "des_2_agences" x.
Proof. reflexivity. Qed.

Lemma opt_lift2_None (f : Q -> Q -> Q) (x y : option Q) :
  opt_lift2 f x y = None <-> x = None \/ y = None.
Proof. destruct x, y; simpl; split; try tauto; try discriminate; intros [|]; discriminate. Qed.

(** When the two names differ and neither is "des_2_agences", the columns of
    the two discrepancies are those of the tables, the column of the
    differences is other minus reference and the column of the sums is
    reference plus other, row by row, NaN being absorbing. *)
Lemma derived_columns (argsort : list Q -> list nat)
    (nom_a nom_b : string) (df_a df_b : list InvRow) :
  argsort_contract argsort ->
  nom_a <> nom_b -> nom_a <> "des_2_agences" -> nom_b <> "des_2_agences" ->
  exists (res : frame) (J : list (InvRow * InvRow)),
    comparer_deux_agences argsort nom_a df_a nom_b df_b = inr res
    /\ Permutation J (joined df_a df_b)
    /\ getitem (col_ecart_de nom_a) res
       = inr (map (fun p => VNum (ecart (fst p))) J)
    /\ getitem (col_ecart_de nom_b) res
       = inr (map (fun p => VNum (ecart (snd p))) J)
    /\ getitem col_ecart_des_2_agences res
       = inr (map (fun p => VNum (opt_lift2 Qminus (ecart (snd p)) (ecart (fst p)))) J)
    /\ getitem col_somme_ecarts res
       = inr (map (fun p => VNum (opt_lift2 Qplus (ecart (fst p)) (ecart (snd p)))) J).
Proof.
  intros Hc Hne Ha Hb.
  apply String.eqb_neq in Hne, Ha, Hb.
  assert (Hne' : String.eqb nom_b nom_a = false)
    by (by rewrite String.eqb_sym).
  assert (Ha' : String.eqb "des_2_agences" nom_a = false)
    by (by rewrite String.eqb_sym).
  assert (Hb' : String.eqb "des_2_agences" nom_b = false)
    by (by rewrite String.eqb_sym).
  destruct (comparer_rows argsort nom_a nom_b df_a df_b Hc Hne)
    as (res & ea & eb & indexer & Hres & Hea & Heb & -> & Hperm).
  unfold res_net in Hea, Heb.
  rewrite getitem_setitem_ne in Hea, Heb
    by (by rewrite reserved_col_ecart_de).
  unfold base_frame in Hea, Heb.
  revert Hea Heb. frame_step. intros Hea Heb.
  assert (ea = map (fun p => VNum (ecart (fst p))) (joined df_a df_b)) as ->
    by congruence.
  assert (eb = map (fun p => VNum (ecart (snd p))) (joined df_a df_b)) as ->
    by congruence.
  exists (sorted_by indexer
    (setitem col_somme_ecarts
       (map (fun p => VNum (opt_lift2 Qplus (ecart (fst p)) (ecart (snd p))))
            (joined df_a df_b))
       (res_net nom_a nom_b (joined df_a df_b)))),
    (take_idx indexer (joined df_a df_b)).
  split.
  { rewrite Hres. unfold col_add. by rewrite zip_with_map_same. }
  split; [exact Hperm|].
  rewrite !getitem_sorted_by, getitem_setitem_eq.
  rewrite !getitem_setitem_ne by (rewrite ?col_ecart_de_reserved; done).
  unfold res_net. rewrite getitem_setitem_eq.
  rewrite !getitem_setitem_ne by (by rewrite reserved_col_ecart_de).
  unfold col_sub. rewrite zip_with_map_same. cbn [num_of].
  unfold base_frame. frame_step.
  by rewrite !take_idx_map.
Qed.

(** C7, the code at a failing input: when the other agency is named
    "des_2_agences", the label of its discrepancy column is the label of
    the column of the differences; the difference 5 - 1 = 4 overwrites the
    discrepancy 5 of the other agency, the frame has nine columns, and the
    sum is computed as 1 + 4 = 5 where the discrepancies add up to 6.  With
    that name on the reference side the reference discrepancy is overwritten
    and the sum is 4 + 5 = 9. *)
Theorem reserved_name_overwrites_discrepancy :
  (exists res,
     comparer_deux_agences argsort_stable
       "A" [item "X" (Some 1%Q)] "des_2_agences" [item "X" (Some 5%Q)] = inr res
     /\ labels res
        = [col_agence; col_agence_comparee; col_code_article; col_designation;
           col_stock_theorique; col_stock_physique; col_ecart_de "A";
           col_ecart_des_2_agences; col_somme_ecarts]
     /\ getitem (col_ecart_de "A") res = inr [VNum (Some 1%Q)]
     /\ getitem (col_ecart_de "des_2_agences") res = inr [VNum (Some 4%Q)]
     /\ getitem col_ecart_des_2_agences res = inr [VNum (Some 4%Q)]
     /\ getitem col_somme_ecarts res = inr [VNum (Some 5%Q)])
  /\ (exists res,
     comparer_deux_agences argsort_stable
       "des_2_agences" [item "X" (Some 1%Q)] "B" [item "X" (Some 5%Q)] = inr res
     /\ getitem (col_ecart_de "des_2_agences") res = inr [VNum (Some 4%Q)]
     /\ getitem (col_ecart_de "B") res = inr [VNum (Some 5%Q)]
     /\ getitem col_somme_ecarts res = inr [VNum (Some 9%Q)]).
Proof.
  split; eexists; (split; [vm_compute; reflexivity|]);
    repeat split; reflexivity.
Qed.

(** ** Size of a comparison *)

Lemma lookup_repeat {A} (x : A) (n i : nat) :
  (i < n)%nat -> repeat x n !! i = Some x.
Proof.
  revert i. induction n as [|n IH]; intros [|i] Hi; simpl; try lia;
    [reflexivity|]. apply IH. lia.
Qed.

Lemma take_idx_repeat_all {A} (ix : list nat) (x : A) (n : nat) :
  (forall i, In i ix -> (i < n)%nat) ->
  take_idx ix (repeat x n) = repeat x (length ix).
Proof.
  induction ix as [|i ix IH]; intros Hr; simpl; [reflexivity|].
  rewrite (lookup_repeat x n i) by (apply Hr; by left).
  f_equal. apply IH. intros j Hj. apply Hr. by right.
Qed.

Lemma all_length_sorted_by (n : nat) (indexer : list nat) (df : frame) :
  Permutation indexer (seq 0 n) ->
  all_length n df -> all_length n (sorted_by indexer df).
Proof.
  intros Hp Hall. unfold all_length, sorted_by in *.
  apply Forall_forall. intros [l c] Hin. apply list_elem_of_In in Hin.
  apply in_map_iff in Hin as ([l0 c0] & [= <- <-] & Hin0). simpl.
  rewrite Forall_forall in Hall.
  specialize (Hall (l0, c0) (proj2 (list_elem_of_In _ _) Hin0)). simpl in Hall.
  rewrite take_idx_in_range_length.
  - rewrite (Permutation_length Hp). apply length_seq.
  - intros i Hi. apply (Permutation_in _ Hp) in Hi. apply in_seq in Hi. lia.
Qed.

Lemma labels_sorted_by (indexer : list nat) (df : frame) :
  labels (sorted_by indexer df) = labels df.
Proof.
  unfold labels, sorted_by. rewrite map_map. apply map_ext. by intros [l c].
Qed.

Lemma comparer_indexer (argsort : list Q -> list nat) (nom_a nom_b : string)
    (df_a df_b : list InvRow) :
  argsort_contract argsort ->
  String.eqb nom_a nom_b = false ->
  exists ea eb indexer,
    getitem (col_ecart_de nom_a) (res_net nom_a nom_b (joined df_a df_b)) = inr ea
    /\ getitem (col_ecart_de nom_b) (res_net nom_a nom_b (joined df_a df_b)) = inr eb
    /\ length (col_add ea eb) = length (joined df_a df_b)
    /\ comparer_deux_agences argsort nom_a df_a nom_b df_b
       = inr (sorted_by indexer
                (setitem col_somme_ecarts (col_add ea eb)
                   (res_net nom_a nom_b (joined df_a df_b))))
    /\ Permutation indexer (seq 0 (length (joined df_a df_b))).
Proof.
  intros Hc Hne.
  destruct (comparer_inr argsort nom_a nom_b df_a df_b Hne)
    as (ea & eb & Hea & Heb & Hres).
  pose proof (all_length_res_net nom_a nom_b (joined df_a df_b)) as Hall.
  pose proof (all_length_getitem _ _ _ _ Hall Hea) as Hla.
  pose proof (all_length_getitem _ _ _ _ Hall Heb) as Hlb.
  assert (Hl : length (col_add ea eb) = length (joined df_a df_b))
    by (rewrite col_add_length; congruence).
  exists ea, eb, (nargsort_desc argsort (col_abs (col_add ea eb))).
  split; [done|]. split; [done|]. split; [done|]. split; [done|].
  rewrite (nargsort_desc_Permutation argsort _ Hc).
  unfold col_abs. by rewrite length_map, Hl.
Qed.

Lemma length_setitem_le (l : string) (c : list value) (df : frame) :
  (length (setitem l c df) <= S (length df))%nat.
Proof.
  induction df as [|[l0 c0] df IH]; simpl; [lia|].
  destruct (String.eqb l0 l); simpl; lia.
Qed.




(** ** The workbook writer *)

Lemma append_cons (c : ascii) (s t : string) :
  String c s ++ t = String c (s ++ t).
Proof. reflexivity. Qed.

Lemma append_nil (t : string) : "" ++ t = t.
Proof. reflexivity. Qed.

Lemma slice_to_length (n : nat) (s : string) :
  String.length (Py.slice_to n s) = Nat.min n (String.length s).
Proof.
  revert s. induction n as [|n IH]; intros [|c s]; simpl; try reflexivity.
  by rewrite IH.
Qed.

Lemma slice_to_short (n : nat) (s : string) :
  (String.length s <= n)%nat -> Py.slice_to n s = s.
Proof.
  revert s. induction n as [|n IH]; intros [|c s]; simpl; try reflexivity.
  - lia.
  - intros H. rewrite IH; [reflexivity|lia].
Qed.

Lemma length_append (s t : string) :
  String.length (s ++ t) = (String.length s + String.length t)%nat.
Proof.
  induction s as [|c s IH]; [reflexivity|].
  rewrite append_cons. simpl. by rewrite IH.
Qed.

Lemma sheet_name_not_empty (nom other : string) :
  Py.slice_to 31 (nom ++ "_vs_" ++ other) <> "".
Proof.
  destruct nom as [|c nom]; [rewrite append_nil|]; rewrite append_cons;
    discriminate.
Qed.

Lemma sheet_name_length (nom other : string) :
  (String.length (Py.slice_to 31 (nom ++ "_vs_" ++ other)) <= 31)%nat.
Proof. rewrite slice_to_length. lia. Qed.

Lemma has_sheet_In (s : string) (W : workbook) :
  has_sheet s W = true <-> In s (map fst W).
Proof.
  unfold has_sheet. rewrite existsb_exists. split.
  - intros (ws & Hin & Heq). apply String.eqb_eq in Heq as <-.
    by apply in_map.
  - intros Hin. apply in_map_iff in Hin as (ws & <- & Hin).
    exists ws. split; [done|apply String.eqb_refl].
Qed.

Lemma lower_clash_false (s : string) (W : workbook) :
  existsb (fun ws => String.eqb (Py.lower s) (Py.lower (fst ws))) W = false
  <-> ~ In (Py.lower s) (map Py.lower (map fst W)).
Proof.
  rewrite <- not_true_iff_false, existsb_exists. split; intros H Hin; apply H.
  - rewrite map_map in Hin. apply in_map_iff in Hin as (ws & Heq & Hin).
    exists ws. split; [done|]. apply String.eqb_eq. by symmetry.
  - destruct Hin as (ws & Hin & Heq). apply String.eqb_eq in Heq.
    rewrite Heq, map_map. by apply (in_map (fun ws => Py.lower (fst ws))).
Qed.

(** The check of a name that is not empty and has 31 characters at most. *)
Lemma check_sheetname_cases (s : string) (W : workbook) :
  s <> "" -> (String.length s <= 31)%nat ->
  check_sheetname s W
  = if negb (valid_sheetname s) then inl (InvalidWorksheetName s)
    else if existsb (fun ws => String.eqb (Py.lower s) (Py.lower (fst ws))) W
    then inl (DuplicateWorksheetName s)
    else inr s.
Proof.
  intros Hne Hlen. unfold check_sheetname, valid_sheetname.
  destruct (String.eqb_spec s "") as [->|_]; [done|].
  destruct (Nat.ltb_spec 31 (String.length s)) as [|_]; [lia|].
  destruct (has_invalid_char s); [reflexivity|].
  destruct (Py.startswith s "'"); [reflexivity|].
  destruct (endswith s "'"); reflexivity.
Qed.


(** ** Report generation *)

Lemma lookup_enumerate_from {A} (l : list A) (k i : nat) :
  combine (seq k (length l)) l !! i = (fun x => (k + i, x)%nat) <$> l !! i.
Proof.
  revert k i. induction l as [|x l IH]; intros k [|i]; simpl; try reflexivity.
  - by rewrite Nat.add_0_r.
  - rewrite IH. by replace (S k + i)%nat with (k + S i)%nat by lia.
Qed.

Lemma lookup_enumerate {A} (l : list A) (i : nat) :
  enumerate l !! i = (fun x => (i, x)) <$> l !! i.
Proof. unfold enumerate. by rewrite lookup_enumerate_from. Qed.

Lemma in_enumerate {A} (l : list A) (j : nat) (x : A) :
  In (j, x) (enumerate l) -> l !! j = Some x.
Proof.
  intros H. apply list_elem_of_In, list_elem_of_lookup in H as [i Hi].
  rewrite lookup_enumerate in Hi.
  destruct (l !! i) as [y|] eqn:E; simpl in Hi; [|discriminate].
  by injection Hi as -> ->.
Qed.

Lemma filter_all_from {A} (l : list A) (k i : nat) :
  (i < k)%nat ->
  List.filter (fun o => negb (Nat.eqb (fst o) i)) (combine (seq k (length l)) l)
  = combine (seq k (length l)) l.
Proof.
  revert k. induction l as [|x l IH]; intros k Hk; simpl; [reflexivity|].
  destruct (Nat.eqb_spec k i); [lia|]. simpl. f_equal. apply IH. lia.
Qed.

Lemma snd_combine_seq {A} (l : list A) (k : nat) :
  map snd (combine (seq k (length l)) l) = l.
Proof.
  revert k. induction l as [|x l IH]; intros k; simpl; [reflexivity|].
  by rewrite IH.
Qed.

Lemma filter_enumerate_from {A} (l : list A) (k i : nat) :
  (k <= i)%nat ->
  map snd (List.filter (fun o => negb (Nat.eqb (fst o) i))
             (combine (seq k (length l)) l))
  = delete (i - k)%nat l.
Proof.
  revert k. induction l as [|x l IH]; intros k Hk; simpl; [reflexivity|].
  destruct (Nat.eqb_spec k i) as [->|Hne]; simpl.
  - rewrite Nat.sub_diag. simpl.
    rewrite filter_all_from by lia. apply snd_combine_seq.
  - rewrite IH by lia.
    replace (i - k)%nat with (S (i - S k)) by lia. reflexivity.
Qed.

Lemma filter_enumerate {A} (l : list A) (i : nat) :
  map snd (List.filter (fun o => negb (Nat.eqb (fst o) i)) (enumerate l))
  = delete i l.
Proof.
  unfold enumerate. rewrite filter_enumerate_from by lia.
  by rewrite Nat.sub_0_r.
Qed.

Lemma in_enumerate_2 {A} (l : list A) (i : nat) (x : A) :
  l !! i = Some x -> In (i, x) (enumerate l).
Proof.
  intros H. apply list_elem_of_In, list_elem_of_lookup. exists i.
  by rewrite lookup_enumerate, H.
Qed.

Lemma elem_of_delete_lookup {A} (l : list A) (i : nat) (x : A) :
  x ∈ delete i l -> exists j, j <> i /\ l !! j = Some x.
Proof.
  intros Hx. apply list_elem_of_lookup in Hx as [k Hk].
  destruct (decide (k < i)%nat) as [Hlt|Hge].
  - exists k. split; [lia|]. by rewrite list_lookup_delete_lt in Hk.
  - exists (S k). split; [lia|]. by rewrite list_lookup_delete_ge in Hk by lia.
Qed.







(** The names of the sheets and files of the three agencies A, B, C. *)
Example three_agencies_sheets :
  map (fun doc => (file_name doc, map fst (sheets doc)))
      (documents_of (generer_rapports argsort_stable three_agencies))
  = [ ("rapport_inventaire_A.xlsx", ["A_vs_B"; "A_vs_C"]);
      ("rapport_inventaire_B.xlsx", ["B_vs_A"; "B_vs_C"]);
      ("rapport_inventaire_C.xlsx", ["C_vs_A"; "C_vs_B"]) ].
Proof. vm_compute. reflexivity. Qed.

(** A sheet name longer than 31 characters is cut after the
    concatenation. *)
Example long_sheet_name :
  Py.slice_to 31 ("AgenceDuNordTresLongueAAA" ++ "_vs_" ++ "Bordeaux")
  = "AgenceDuNordTresLongueAAA_vs_Bo".
Proof. reflexivity. Qed.

(** Two agencies entered under the same name: the comparison raises a
    [KeyError] on the discrepancy label, and the run stops with no document. *)
Example same_name_aborts (argsort : list Q -> list nat) :
  generer_rapports argsort [("A", table_AAB); ("A", table_AC)]
  = Aborted [] (KeyError (col_ecart_de "A")).
Proof.
  unfold generer_rapports, enumerate.
  cbn [length Nat.ltb Nat.leb seq combine reports sheets_for Nat.eqb].
  by rewrite comparer_same_name.
Qed.

(** ** Refusal below two agencies *)

Lemma agence_infos_length (slots : list (string * option uploaded)) :
  length (agence_infos slots) = length (List.filter valid_slot slots).
Proof.
  unfold agence_infos. induction slots as [|[nom [f|]] slots IH]; simpl;
    [reflexivity| |exact IH].
  unfold valid_slot. simpl.
  destruct (String.eqb (Py.strip nom) ""); simpl; [exact IH|].
  destruct (charger_inventaire f); simpl; by rewrite IH.
Qed.

(** C8: the agencies retained are the slots with a file, a name that is not
    blank and a file that loads; the handler refuses exactly when fewer than
    two agencies are retained, and a refusal offers no document; with two
    agencies or more the handler runs the generation loops. *)
Theorem refused_iff_fewer_than_two (argsort : list Q -> list nat)
    (slots : list (string * option uploaded)) :
  length (agence_infos slots) = length (List.filter valid_slot slots)
  /\ (generer_rapports argsort (agence_infos slots) = Refused
      <-> (length (List.filter valid_slot slots) < 2)%nat)
  /\ documents_of Refused = []
  /\ ((2 <= length (List.filter valid_slot slots))%nat <->
      generer_rapports argsort (agence_infos slots)
      = match reports argsort (enumerate (agence_infos slots))
                      (enumerate (agence_infos slots)) with
        | (docs, None) => Generated docs
        | (docs, Some e) => Aborted docs e
        end).
Proof.
  rewrite <- agence_infos_length. unfold generer_rapports.
  split; [reflexivity|].
  destruct (Nat.ltb_spec (length (agence_infos slots)) 2) as [Hlt|Hge].
  - split; [tauto|]. split; [reflexivity|]. split; [lia|].
    destruct (reports _ _ _) as [docs [e|]]; discriminate.
  - split.
    + split; [|lia]. destruct (reports _ _ _) as [docs [e|]]; discriminate.
    + split; [reflexivity|]. tauto.
Qed.

(** * Further properties of the column scan *)

Lemma scan_header_keeps (m : gmap Field string) (col : string) (f : Field)
    (h : string) :
  m !! f = Some h -> scan_header m col !! f = Some h.
Proof.
  intros Hf.
  destruct (scan_header_cases m col) as [(f0 & [_ Hfree] & _ & ->)|[_ ->]];
    [|done].
  rewrite lookup_insert_ne; [done|]. intros ->. congruence.
Qed.

Lemma foldl_scan_header_keeps (cols : list string) (m : gmap Field string)
    (f : Field) (h : string) :
  m !! f = Some h -> foldl scan_header m cols !! f = Some h.
Proof.
  revert m. induction cols as [|c cols IH]; intros m Hf; simpl; [done|].
  apply IH. by apply scan_header_keeps.
Qed.

Lemma scan_header_lookup (m : gmap Field string) (col : string) (f : Field) :
  scan_header m col !! f = m !! f
  \/ (m !! f = None /\ scan_header m col !! f = Some col
      /\ pattern_matches f (col_clean col) = true).
Proof.
  destruct (scan_header_cases m col) as [(f0 & [Hp Hfree] & _ & ->)|[_ ->]];
    [|by left].
  destruct (decide (f0 = f)) as [<-|Hne].
  - right. by rewrite lookup_insert_eq.
  - left. by rewrite lookup_insert_ne.
Qed.

(** X1: first match wins over the whole scan: a field that has a header
    after a first part of the headers keeps that header whatever headers
    follow. *)
Theorem scan_headers_first_wins (pre post : list string) (f : Field)
    (h : string) :
  scan_headers pre !! f = Some h ->
  scan_headers (pre ++ post) !! f = Some h.
Proof.
  intros Hf. unfold scan_headers. rewrite foldl_app.
  by apply foldl_scan_header_keeps.
Qed.

Lemma scan_headers_first_wins_witness :
  scan_headers [col_code_article; "Ecart"] !! Ecart = Some "Ecart"
  /\ scan_headers ([col_code_article; "Ecart"] ++ ["Ecart valeur"; "ecart"])
       !! Ecart = Some "Ecart".
Proof.
  split; [reflexivity|].
  apply (scan_headers_first_wins [col_code_article; "Ecart"]
           ["Ecart valeur"; "ecart"] Ecart "Ecart").
  reflexivity.
Defined.

Lemma foldl_scan_header_origin (cols : list string) (m : gmap Field string)
    (f : Field) (h : string) :
  foldl scan_header m cols !! f = Some h ->
  m !! f = Some h
  \/ (In h cols /\ pattern_matches f (col_clean h) = true).
Proof.
  revert m. induction cols as [|c cols IH]; intros m Hf; simpl in *;
    [by left|].
  destruct (IH _ Hf) as [Hm|[Hin Hp]].
  - destruct (scan_header_lookup m c f) as [Heq|(_ & Hset & Hp)].
    + left. congruence.
    + right. assert (h = c) as -> by congruence. split; [by left|done].
  - right. split; [by right|done].
Qed.

(** X2: whatever the scan gives to a field is one of the headers of the
    file, and the pattern of the field accepts it. *)
Theorem scan_headers_sound (cols : list string) (f : Field) (h : string) :
  scan_headers cols !! f = Some h ->
  In h cols /\ pattern_matches f (col_clean h) = true.
Proof.
  intros Hf. destruct (foldl_scan_header_origin cols ∅ f h Hf) as [H|H];
    [|done].
  by rewrite lookup_empty in H.
Qed.

Lemma scan_headers_sound_witness :
  scan_headers headers_plain !! StockPhysique = Some col_stock_physique
  /\ In col_stock_physique headers_plain
  /\ pattern_matches StockPhysique (col_clean col_stock_physique) = true.
Proof.
  split; [reflexivity|].
  apply (scan_headers_sound headers_plain StockPhysique col_stock_physique).
  reflexivity.
Defined.

Lemma earlier_trichotomy (f g : Field) : earlier f g \/ f = g \/ earlier g f.
Proof.
  unfold earlier.
  destruct (lt_eq_lt_dec (Field_to_nat f) (Field_to_nat g)) as [[H|H]|H];
    [by left| |by right; right].
  right; left. by apply Field_to_nat_inj.
Qed.

Lemma foldl_scan_header_missing (cols : list string) (m : gmap Field string)
    (f : Field) (h : string) :
  foldl scan_header m cols !! f = None ->
  In h cols -> pattern_matches f (col_clean h) = true ->
  exists g, earlier g f /\ pattern_matches g (col_clean h) = true
            /\ foldl scan_header m cols !! g = Some h.
Proof.
  revert m. induction cols as [|c cols IH]; intros m Hnone Hin Hp; simpl in *;
    [done|].
  assert (Hstep : scan_header m c !! f = None).
  { destruct (scan_header m c !! f) as [x|] eqn:E; [|done].
    by rewrite (foldl_scan_header_keeps cols _ f x E) in Hnone. }
  destruct Hin as [->|Hin]; [|by apply IH].
  assert (Hm : m !! f = None).
  { destruct (m !! f) as [x|] eqn:E; [|done].
    by rewrite (scan_header_keeps m h f x E) in Hstep. }
  destruct (scan_header_cases m h) as [(g & [Hg Hfree] & Hfirst & Heq)|[Hno _]].
  - exists g. destruct (earlier_trichotomy g f) as [Hlt|[->|Hgt]].
    + split; [done|]. split; [done|].
      apply foldl_scan_header_keeps. rewrite Heq. apply lookup_insert_eq.
    + rewrite Heq, lookup_insert_eq in Hstep. discriminate.
    + exfalso. apply (Hfirst f Hgt). by split.
  - exfalso. apply (Hno f). by split.
Qed.

(** X3: a field ends the scan without a header only if every header that
    its pattern accepts was given to a field tested before it. *)
Theorem scan_headers_missing_only_if_taken (cols : list string) (f : Field)
    (h : string) :
  scan_headers cols !! f = None ->
  In h cols -> pattern_matches f (col_clean h) = true ->
  exists g, earlier g f /\ pattern_matches g (col_clean h) = true
            /\ scan_headers cols !! g = Some h.
Proof. apply foldl_scan_header_missing. Qed.

Lemma scan_headers_missing_only_if_taken_witness :
  scan_headers [header_two_stocks] !! StockPhysique = None
  /\ In header_two_stocks [header_two_stocks]
  /\ pattern_matches StockPhysique (col_clean header_two_stocks) = true
  /\ exists g, earlier g StockPhysique
       /\ pattern_matches g (col_clean header_two_stocks) = true
       /\ scan_headers [header_two_stocks] !! g = Some header_two_stocks.
Proof.
  split; [reflexivity|]. split; [by left|]. split; [reflexivity|].
  apply (scan_headers_missing_only_if_taken [header_two_stocks] StockPhysique
           header_two_stocks); [reflexivity|by left|reflexivity].
Defined.

Lemma foldl_scan_header_find (cols : list string) (m : gmap Field string)
    (f : Field) :
  (forall h g g', In h cols ->
     pattern_matches g (col_clean h) = true ->
     pattern_matches g' (col_clean h) = true -> g = g') ->
  foldl scan_header m cols !! f
  = match m !! f with
    | Some x => Some x
    | None => List.find (fun h => pattern_matches f (col_clean h)) cols
    end.
Proof.
  revert m. induction cols as [|c cols IH]; intros m Hone; simpl.
  - by destruct (m !! f).
  - rewrite IH by (intros h g g' Hin; apply Hone; by right).
    destruct (m !! f) as [x|] eqn:Hm.
    + by rewrite (scan_header_keeps m c f x Hm).
    + destruct (scan_header_cases m c)
        as [(g & [Hg Hfree] & Hfirst & ->)|[Hno ->]].
      * destruct (decide (g = f)) as [->|Hne].
        -- by rewrite lookup_insert_eq, Hg.
        -- rewrite lookup_insert_ne, Hm by done.
           destruct (pattern_matches f (col_clean c)) eqn:Hp; [|done].
           exfalso. apply Hne. apply (Hone c g f); [by left|done..].
      * rewrite Hm.
        destruct (pattern_matches f (col_clean c)) eqn:Hp; [|done].
        exfalso. apply (Hno f). by split.
Qed.

(** X4: when no header of the file is accepted by the patterns of two
    fields, the scan gives each field the first header, in the order of the
    file, that its pattern accepts, and leaves the field without a header
    when there is none. *)
Theorem scan_headers_first_match (cols : list string) (f : Field) :
  (forall h g g', In h cols ->
     pattern_matches g (col_clean h) = true ->
     pattern_matches g' (col_clean h) = true -> g = g') ->
  scan_headers cols !! f
  = List.find (fun h => pattern_matches f (col_clean h)) cols.
Proof.
  intros Hone. unfold scan_headers.
  rewrite (foldl_scan_header_find cols ∅ f Hone). by rewrite lookup_empty.
Qed.

Lemma scan_headers_first_match_witness :
  (forall h g g', In h ["Ecart"; col_code_article; "Ecart 2"] ->
     pattern_matches g (col_clean h) = true ->
     pattern_matches g' (col_clean h) = true -> g = g')
  /\ scan_headers ["Ecart"; col_code_article; "Ecart 2"] !! Ecart
     = List.find (fun h => pattern_matches Ecart (col_clean h))
         ["Ecart"; col_code_article; "Ecart 2"].
Proof.
  assert (Hone : forall h g g', In h ["Ecart"; col_code_article; "Ecart 2"] ->
     pattern_matches g (col_clean h) = true ->
     pattern_matches g' (col_clean h) = true -> g = g').
  { intros h g g' Hin.
    destruct Hin as [<-|[<-|[<-|[]]]]; destruct g, g'; vm_compute;
      intros; solve [reflexivity | discriminate]. }
  split; [exact Hone|].
  exact (scan_headers_first_match ["Ecart"; col_code_article; "Ecart 2"]
           Ecart Hone).
Defined.

(** * Further properties of the text primitives and of the loader *)

Lemma lstrip_starts_clean (s : string) : starts_clean (Py.lstrip s) = true.
Proof.
  induction s as [|c s IH]; simpl; [reflexivity|].
  destruct (Py.isspace c) eqn:E; [exact IH|]. simpl. by rewrite E.
Qed.

Lemma lstrip_id (s : string) : starts_clean s = true -> Py.lstrip s = s.
Proof.
  destruct s as [|c s]; simpl; [reflexivity|].
  by destruct (Py.isspace c).
Qed.

Lemma rstrip_cons (c : ascii) (s : string) :
  Py.rstrip (String c s)
  = match Py.rstrip s with
    | EmptyString =>
        if Py.isspace c then EmptyString else String c EmptyString
    | String d r => String c (String d r)
    end.
Proof. reflexivity. Qed.

Lemma rstrip_idem (s : string) : Py.rstrip (Py.rstrip s) = Py.rstrip s.
Proof.
  induction s as [|c s IH]; [reflexivity|].
  rewrite rstrip_cons. destruct (Py.rstrip s) as [|d r] eqn:E.
  - destruct (Py.isspace c) eqn:Hc; [reflexivity|].
    rewrite rstrip_cons. simpl. by rewrite Hc.
  - rewrite rstrip_cons, IH. reflexivity.
Qed.

Lemma rstrip_starts_clean (s : string) :
  starts_clean s = true -> starts_clean (Py.rstrip s) = true.
Proof.
  destruct s as [|c s]; [reflexivity|].
  rewrite rstrip_cons. simpl. intros Hc.
  destruct (Py.rstrip s); [|exact Hc].
  destruct (Py.isspace c) eqn:E; [reflexivity|]. simpl. by rewrite E.
Qed.

Lemma strip_idem (s : string) : Py.strip (Py.strip s) = Py.strip s.
Proof.
  unfold Py.strip.
  rewrite (lstrip_id (Py.rstrip (Py.lstrip s))).
  - apply rstrip_idem.
  - apply rstrip_starts_clean, lstrip_starts_clean.
Qed.

Lemma replace_lacks (c : ascii) (new s : string) :
  lacks c s = true -> Py.replace c new s = s.
Proof.
  induction s as [|d s IH]; simpl; [reflexivity|].
  rewrite andb_true_iff, negb_true_iff. intros [-> Hs]. by rewrite IH.
Qed.

Lemma lacks_append (c : ascii) (s t : string) :
  lacks c (s ++ t) = lacks c s && lacks c t.
Proof.
  induction s as [|d s IH]; simpl; [reflexivity|].
  by rewrite IH, andb_assoc.
Qed.

Lemma lacks_replace (c : ascii) (new s : string) :
  lacks c new = true -> lacks c (Py.replace c new s) = true.
Proof.
  intros Hnew. induction s as [|d s IH]; simpl; [reflexivity|].
  destruct (Ascii.eqb d c) eqn:E.
  - by rewrite lacks_append, Hnew, IH.
  - simpl. by rewrite E, IH.
Qed.

Lemma lacks_lstrip (c : ascii) (s : string) :
  lacks c s = true -> lacks c (Py.lstrip s) = true.
Proof.
  induction s as [|d s IH]; simpl; [reflexivity|].
  rewrite andb_true_iff. intros [Hd Hs].
  destruct (Py.isspace d); [by apply IH|]. simpl. by rewrite Hd, Hs.
Qed.

Lemma lacks_rstrip (c : ascii) (s : string) :
  lacks c s = true -> lacks c (Py.rstrip s) = true.
Proof.
  induction s as [|d s IH]; [reflexivity|].
  rewrite rstrip_cons. simpl. rewrite andb_true_iff. intros [Hd Hs].
  specialize (IH Hs). destruct (Py.rstrip s) as [|e r].
  - destruct (Py.isspace d); [reflexivity|]. simpl. by rewrite Hd.
  - cbn [lacks]. cbn [lacks] in IH. by rewrite Hd, IH.
Qed.

Lemma lower_char_nbsp (c : ascii) :
  Ascii.eqb (Py.lower_char c) Py.nbsp = Ascii.eqb c Py.nbsp.
Proof. destruct c as [[] [] [] [] [] [] [] []]; reflexivity. Qed.

Lemma lacks_lower (s : string) :
  lacks Py.nbsp (Py.lower s) = lacks Py.nbsp s.
Proof.
  induction s as [|d s IH]; simpl; [reflexivity|].
  by rewrite lower_char_nbsp, IH.
Qed.

Lemma clean_header_lacks_nbsp (h : string) :
  lacks Py.nbsp (clean_header h) = true.
Proof.
  unfold clean_header, Py.strip.
  apply lacks_rstrip, lacks_lstrip, lacks_replace. reflexivity.
Qed.

(** X5: cleaning a header twice is cleaning it once, and on a cleaned
    header the replacement of non-breaking spaces made again by the scan
    (line 63) changes nothing: the text tested is the lower-cased header. *)
Theorem clean_header_idempotent (h : string) :
  clean_header (clean_header h) = clean_header h
  /\ col_clean (clean_header h) = Py.lower (clean_header h).
Proof.
  split.
  - unfold clean_header at 1.
    rewrite replace_lacks by apply clean_header_lacks_nbsp.
    unfold clean_header. apply strip_idem.
  - unfold col_clean. apply replace_lacks.
    rewrite lacks_lower. apply clean_header_lacks_nbsp.
Qed.

(** X6: every item code of a loaded table is a text without surrounding
    white space: trimming it again changes nothing. *)
Theorem charger_inventaire_codes_trimmed (up : uploaded) (out : list InvRow) :
  charger_inventaire up = inr out ->
  Forall (fun r => exists s, code_article r = CStr s /\ Py.strip s = s) out.
Proof.
  intros Hout. destruct (read_frame up) as [e|df] eqn:Hread.
  - unfold charger_inventaire in Hout. rewrite Hread in Hout. discriminate.
  - destruct (charger_inventaire_success up df out Hread Hout)
      as (i0 & i1 & i2 & i3 & i4 & _ & ->).
    apply Forall_forall. intros r Hr. apply list_elem_of_In in Hr.
    apply in_map_iff in Hr as (x & <- & _).
    eexists. split; [reflexivity|]. apply strip_idem.
Qed.

Lemma charger_inventaire_codes_trimmed_witness :
  charger_inventaire (csv_of headers_plain rows_blank_code)
    = inr table_blank_code
  /\ Forall (fun r => exists s, code_article r = CStr s /\ Py.strip s = s)
       table_blank_code.
Proof.
  assert (H : charger_inventaire (csv_of headers_plain rows_blank_code)
              = inr table_blank_code) by (vm_compute; reflexivity).
  split; [exact H|].
  exact (charger_inventaire_codes_trimmed _ _ H).
Defined.

Lemma prefix_iff (p s : string) :
  String.prefix p s = true <-> exists post, s = p ++ post.
Proof.
  revert s. induction p as [|c p IH]; intros s.
  - split; [intros _; by exists s|intros _; by destruct s].
  - destruct s as [|d s].
    + split; [discriminate|]. intros [post H]. rewrite append_cons in H.
      discriminate.
    + change (String.prefix (String c p) (String d s))
        with (if Ascii.ascii_dec c d then String.prefix p s else false).
      destruct (Ascii.ascii_dec c d) as [->|Hne].
      * rewrite IH. split; intros [post H]; exists post.
        -- rewrite append_cons. by rewrite H.
        -- rewrite append_cons in H. congruence.
      * split; [discriminate|]. intros [post H].
        rewrite append_cons in H. congruence.
Qed.

Lemma contains_cons (sub : string) (c : ascii) (s : string) :
  Py.contains sub (String c s)
  = String.prefix sub (String c s) || Py.contains sub s.
Proof. reflexivity. Qed.

Lemma contains_iff (sub s : string) :
  Py.contains sub s = true <-> exists pre post, s = pre ++ sub ++ post.
Proof.
  induction s as [|c s IH].
  - change (Py.contains sub "") with (String.prefix sub "" || false).
    rewrite orb_false_r, prefix_iff. split.
    + intros [post H]. by exists "", post.
    + intros (pre & post & H). destruct pre as [|d pre].
      * by exists post.
      * rewrite append_cons in H. discriminate.
  - rewrite contains_cons, orb_true_iff, prefix_iff, IH. split.
    + intros [[post H]|(pre & post & H)].
      * by exists "", post.
      * exists (String c pre), post. rewrite append_cons. by rewrite H.
    + intros (pre & post & H). destruct pre as [|d pre].
      * left. by exists post.
      * right. exists pre, post. rewrite append_cons in H. congruence.
Qed.

(** X7: the membership and prefix tests of the scan are what they read:
    a pattern is contained in a text exactly when the text is some text, the
    pattern, some text; a text starts with a pattern exactly when it is the
    pattern followed by some text.  So every header that holds "code
    article" in any case, whatever surrounds it, is accepted by the test of
    the item code. *)
Theorem pattern_tests_meaning (sub s : string) :
  (Py.contains sub s = true <-> exists pre post, s = pre ++ sub ++ post)
  /\ (Py.startswith s sub = true <-> exists post, s = sub ++ post)
  /\ (forall h, pattern_matches CodeArticle (col_clean h) = true <->
        exists pre post, col_clean h = pre ++ pat_code_article ++ post)
  /\ (forall h, pattern_matches Ecart (col_clean h) = true <->
        exists post, col_clean h = pat_ecart ++ post).
Proof.
  split; [apply contains_iff|]. split; [apply prefix_iff|].
  split; intros h; [apply contains_iff|apply prefix_iff].
Qed.

Lemma append_assoc (s t u : string) : (s ++ t) ++ u = s ++ (t ++ u).
Proof.
  induction s as [|c s IH]; [reflexivity|].
  by rewrite !append_cons, IH.
Qed.

Lemma replace_cons (old c : ascii) (new s : string) :
  Py.replace old new (String c s)
  = if Ascii.eqb c old then new ++ Py.replace old new s
    else String c (Py.replace old new s).
Proof. reflexivity. Qed.

Lemma replace_append (old : ascii) (new s t : string) :
  Py.replace old new (s ++ t) = Py.replace old new s ++ Py.replace old new t.
Proof.
  induction s as [|c s IH]; [reflexivity|].
  rewrite append_cons, !replace_cons, IH.
  destruct (Ascii.eqb c old); [by rewrite append_assoc|reflexivity].
Qed.

(** X8: the numeric coercion ignores every regular and non-breaking space,
    wherever it stands, and reads a comma as it reads a dot. *)
Theorem coerce_spaces_and_commas (s t : string) :
  coerce (CStr (s ++ " " ++ t)) = coerce (CStr (s ++ t))
  /\ coerce (CStr (s ++ String Py.nbsp t)) = coerce (CStr (s ++ t))
  /\ coerce (CStr (s ++ "," ++ t)) = coerce (CStr (s ++ "." ++ t)).
Proof.
  unfold coerce, astype_str.
  change (String Py.nbsp t) with (String Py.nbsp "" ++ t).
  rewrite !replace_append.
  change (Py.replace "," "." (Py.replace " " "" (Py.replace Py.nbsp "" " ")))
    with "".
  change (Py.replace "," "."
            (Py.replace " " "" (Py.replace Py.nbsp "" (String Py.nbsp ""))))
    with "".
  change (Py.replace "," "." (Py.replace " " "" (Py.replace Py.nbsp "" ",")))
    with ".".
  change (Py.replace "," "." (Py.replace " " "" (Py.replace Py.nbsp "" ".")))
    with ".".
  rewrite !append_nil. done.
Qed.

Lemma positions_length_pos (h : string) (cols : list string) (i : nat) :
  In h cols -> (1 <= length (positions h cols i))%nat.
Proof.
  revert i. induction cols as [|c cols IH]; intros i; simpl; [done|].
  destruct (String.eqb_spec c h) as [->|Hne]; simpl; [lia|].
  intros [Heq|Hin]; [done|]. by apply IH.
Qed.

Lemma selected_length (cols : list string) (m : gmap Field string) :
  length (selected cols m)
  = (length (positions (label_of m CodeArticle) cols 0)
     + length (positions (label_of m Designation) cols 0)
     + length (positions (label_of m StockTheorique) cols 0)
     + length (positions (label_of m StockPhysique) cols 0)
     + length (positions (label_of m Ecart) cols 0))%nat.
Proof.
  unfold selected, required_logical_cols. simpl.
  rewrite !length_app. simpl. lia.
Qed.

Lemma project_outcome (cols : list string) (m : gmap Field string)
    (data : list (list cell)) :
  (length (selected cols m) = 5%nat /\ exists p, project cols m data = inr p)
  \/ (length (selected cols m) <> 5%nat
      /\ project cols m data = inl LengthMismatch).
Proof.
  unfold project. fold (selected cols m).
  destruct (selected cols m) as [|i0 [|i1 [|i2 [|i3 [|i4 [|i5 l]]]]]];
    simpl; try (right; split; [lia|reflexivity]).
  left. split; [reflexivity|]. by eexists.
Qed.

Lemma mapped_label_present (cols : list string) (f : Field) :
  missing_of (scan_headers cols) = [] ->
  (1 <= length (positions (label_of (scan_headers cols) f) cols 0))%nat.
Proof.
  intros Hm. destruct (proj1 (missing_of_nil _) Hm f) as [h Hh].
  unfold label_of. rewrite Hh. simpl. apply positions_length_pos.
  destruct (foldl_scan_header_origin cols ∅ f h Hh) as [H|[H _]]; [|done].
  by rewrite lookup_empty in H.
Qed.

(** X9: once the file is read and the five fields have a header, the loader
    succeeds exactly when each of the five headers is carried by one column
    only, and fails with the length mismatch of pandas exactly when one of
    them is carried by two columns or more, as happens when two raw headers
    become equal once cleaned. *)
Theorem charger_inventaire_duplicate_labels (up : uploaded) (df : raw_frame) :
  read_frame up = inr df ->
  missing_of (scan_headers (map clean_header (columns df))) = [] ->
  ((exists out, charger_inventaire up = inr out) <->
     forall f, length (positions
                 (label_of (scan_headers (map clean_header (columns df))) f)
                 (map clean_header (columns df)) 0) = 1%nat)
  /\ (charger_inventaire up = inl LengthMismatch <->
     exists f, (2 <= length (positions
                  (label_of (scan_headers (map clean_header (columns df))) f)
                  (map clean_header (columns df)) 0))%nat).
Proof.
  intros Hread Hm. rewrite (charger_inventaire_unfold up df Hread), Hm.
  set (cols := map clean_header (columns df)) in *.
  pose proof (selected_length cols (scan_headers cols)) as Hlen.
  pose proof (mapped_label_present cols CodeArticle Hm).
  pose proof (mapped_label_present cols Designation Hm).
  pose proof (mapped_label_present cols StockTheorique Hm).
  pose proof (mapped_label_present cols StockPhysique Hm).
  pose proof (mapped_label_present cols Ecart Hm).
  destruct (project_outcome cols (scan_headers cols) (rows df))
    as [[H5 [p Hp]]|[H5 Hp]]; rewrite Hp; cbn [bind].
  - split.
    + split; [|intros _; by eexists]. intros _ f. destruct f; lia.
    + split; [discriminate|]. intros [f Hf]. destruct f; lia.
  - split.
    + split; [by intros [out ?]|]. intros Hall. exfalso. apply H5.
      rewrite Hlen, (Hall CodeArticle), (Hall Designation),
        (Hall StockTheorique), (Hall StockPhysique), (Hall Ecart).
      reflexivity.
    + split; [|done]. intros _.
      destruct (decide (length (positions
          (label_of (scan_headers cols) CodeArticle) cols 0) = 1%nat));
        [|exists CodeArticle; lia].
      destruct (decide (length (positions
          (label_of (scan_headers cols) Designation) cols 0) = 1%nat));
        [|exists Designation; lia].
      destruct (decide (length (positions
          (label_of (scan_headers cols) StockTheorique) cols 0) = 1%nat));
        [|exists StockTheorique; lia].
      destruct (decide (length (positions
          (label_of (scan_headers cols) StockPhysique) cols 0) = 1%nat));
        [|exists StockPhysique; lia].
      exists Ecart. lia.
Qed.

Lemma charger_inventaire_duplicate_labels_witness :
  read_frame (csv_of headers_twice_ecart [])
    = inr {| columns := headers_twice_ecart; rows := [] |}
  /\ missing_of (scan_headers (map clean_header headers_twice_ecart)) = []
  /\ (charger_inventaire (csv_of headers_twice_ecart []) = inl LengthMismatch <->
      exists f, (2 <= length (positions
                   (label_of (scan_headers (map clean_header headers_twice_ecart)) f)
                   (map clean_header headers_twice_ecart) 0))%nat).
Proof.
  split; [reflexivity|]. split; [reflexivity|].
  exact (proj2 (charger_inventaire_duplicate_labels
                  (csv_of headers_twice_ecart [])
                  {| columns := headers_twice_ecart; rows := [] |}
                  eq_refl eq_refl)).
Defined.

(** Two raw headers equal once cleaned: the file is refused. *)
Example twice_ecart_refused :
  charger_inventaire (csv_of headers_twice_ecart []) = inl LengthMismatch.
Proof. vm_compute. reflexivity. Qed.

(** * Further properties of the comparison *)

Lemma flat_map_nil {A B} (l : list A) :
  flat_map (fun _ : A => @nil B) l = [].
Proof. induction l as [|x l IH]; simpl; [reflexivity|exact IH]. Qed.

Lemma flat_map_app_Permutation {A B} (f g : A -> list B) (l : list A) :
  Permutation (flat_map (fun x => f x ++ g x)%list l)
              (flat_map f l ++ flat_map g l).
Proof.
  induction l as [|x l IH]; simpl; [reflexivity|].
  rewrite IH, <- !app_assoc. apply Permutation_app_head.
  rewrite !app_assoc. apply Permutation_app_tail, Permutation_app_comm.
Qed.

Lemma joined_cons_r (df_b : list InvRow) (a0 : InvRow) (df_a : list InvRow) :
  joined df_b (a0 :: df_a)
  = flat_map (fun b =>
      (if bool_decide (code_article b = code_article a0)
       then [(b, a0)] else [])
      ++ map (fun a => (b, a))
           (List.filter (fun a => bool_decide (code_article b = code_article a))
              df_a))%list df_b.
Proof.
  unfold joined. apply flat_map_ext. intros b. simpl.
  by destruct (bool_decide (code_article b = code_article a0)).
Qed.

Lemma matches_of_one (a0 : InvRow) (df_b : list InvRow) :
  flat_map (fun b => if bool_decide (code_article b = code_article a0)
                     then [(b, a0)] else []) df_b
  = map (fun p : InvRow * InvRow => (snd p, fst p))
      (map (fun b => (a0, b))
         (List.filter (fun b => bool_decide (code_article a0 = code_article b))
            df_b)).
Proof.
  induction df_b as [|b df_b IH]; simpl; [reflexivity|].
  rewrite IH.
  destruct (decide (code_article b = code_article a0)) as [Heq|Hne].
  - rewrite (bool_decide_eq_true_2 _ Heq).
    rewrite (bool_decide_eq_true_2 (code_article a0 = code_article b))
      by done. reflexivity.
  - rewrite (bool_decide_eq_false_2 _ Hne).
    rewrite (bool_decide_eq_false_2 (code_article a0 = code_article b))
      by (intros H; by apply Hne). reflexivity.
Qed.

Lemma joined_swap (df_a df_b : list InvRow) :
  Permutation (joined df_b df_a)
              (map (fun p => (snd p, fst p)) (joined df_a df_b)).
Proof.
  induction df_a as [|a0 df_a IH].
  - unfold joined. simpl. by rewrite flat_map_nil.
  - rewrite joined_cons_r, flat_map_app_Permutation, matches_of_one.
    change (joined (a0 :: df_a) df_b)
      with (map (fun b => (a0, b))
              (List.filter (fun b => bool_decide (code_article a0 = code_article b))
                 df_b) ++ joined df_a df_b)%list.
    rewrite map_app. apply Permutation_app_head. exact IH.
Qed.

Lemma comparer_codes (argsort : list Q -> list nat) (nom_a nom_b : string)
    (df_a df_b : list InvRow) :
  argsort_contract argsort ->
  String.eqb nom_a nom_b = false ->
  exists res J,
    comparer_deux_agences argsort nom_a df_a nom_b df_b = inr res
    /\ Permutation J (joined df_a df_b)
    /\ getitem col_code_article res
       = inr (map (fun p => VCell (code_article (fst p))) J).
Proof.
  intros Hc Hne.
  assert (Hne' : String.eqb nom_b nom_a = false)
    by (by rewrite String.eqb_sym).
  destruct (comparer_rows argsort nom_a nom_b df_a df_b Hc Hne)
    as (res & ea & eb & indexer & Hres & _ & _ & -> & Hperm).
  eexists _, (take_idx indexer (joined df_a df_b)).
  split; [exact Hres|]. split; [exact Hperm|]. reference_column.
Qed.

(** X10: the comparison of A with B and the comparison of B with A list the
    same item codes, each as many times: the two sheets have the same number
    of rows. *)
Theorem comparer_both_ways (argsort : list Q -> list nat)
    (nom_a nom_b : string) (df_a df_b : list InvRow) :
  argsort_contract argsort ->
  nom_a <> nom_b ->
  exists res_ab res_ba c_ab c_ba,
    comparer_deux_agences argsort nom_a df_a nom_b df_b = inr res_ab
    /\ comparer_deux_agences argsort nom_b df_b nom_a df_a = inr res_ba
    /\ getitem col_code_article res_ab = inr c_ab
    /\ getitem col_code_article res_ba = inr c_ba
    /\ Permutation c_ab c_ba
    /\ length c_ab = length c_ba.
Proof.
  intros Hc Hne. apply String.eqb_neq in Hne.
  assert (Hne' : String.eqb nom_b nom_a = false)
    by (by rewrite String.eqb_sym).
  destruct (comparer_codes argsort nom_a nom_b df_a df_b Hc Hne)
    as (res_ab & J & Hab & HJ & Hcab).
  destruct (comparer_codes argsort nom_b nom_a df_b df_a Hc Hne')
    as (res_ba & K & Hba & HK & Hcba).
  assert (Hperm : Permutation
            (map (fun p : InvRow * InvRow => VCell (code_article (fst p))) J)
            (map (fun p : InvRow * InvRow => VCell (code_article (fst p))) K)).
  { rewrite HJ, HK, (joined_swap df_b df_a), map_map. simpl.
    apply Permutation_refl'. apply map_ext_in. intros p Hp.
    apply in_joined in Hp as (_ & _ & ->). reflexivity. }
  eexists res_ab, res_ba, _, _.
  split; [exact Hab|]. split; [exact Hba|]. split; [exact Hcab|].
  split; [exact Hcba|]. split; [exact Hperm|].
  by apply Permutation_length.
Qed.

Lemma comparer_both_ways_witness :
  argsort_contract argsort_stable
  /\ "Nord" <> "Sud"
  /\ exists res_ab res_ba c_ab c_ba,
       comparer_deux_agences argsort_stable "Nord" table_AAB "Sud" table_AC
         = inr res_ab
       /\ comparer_deux_agences argsort_stable "Sud" table_AC "Nord" table_AAB
          = inr res_ba
       /\ getitem col_code_article res_ab = inr c_ab
       /\ getitem col_code_article res_ba = inr c_ba
       /\ Permutation c_ab c_ba
       /\ length c_ab = length c_ba.
Proof.
  split; [exact argsort_stable_contract|]. split; [discriminate|].
  exact (comparer_both_ways argsort_stable "Nord" "Sud" table_AAB table_AC
           argsort_stable_contract ltac:(discriminate)).
Defined.

(** X11: for two agencies of different names, the frame of a comparison is
    rectangular: every column has as many cells as there are matched pairs;
    the column "Agence" holds the name of the reference in every row and the
    column of the compared agency the other name; and when neither name is
    "des_2_agences" the columns are, in this order: the two names, the item
    code, the designation, the two stocks, the two discrepancies, their
    difference and their sum. *)
Theorem comparer_shape (argsort : list Q -> list nat)
    (nom_a nom_b : string) (df_a df_b : list InvRow) :
  argsort_contract argsort ->
  nom_a <> nom_b ->
  exists res,
    comparer_deux_agences argsort nom_a df_a nom_b df_b = inr res
    /\ all_length (length (joined df_a df_b)) res
    /\ getitem col_agence res
       = inr (repeat (VCell (CStr nom_a)) (length (joined df_a df_b)))
    /\ getitem col_agence_comparee res
       = inr (repeat (VCell (CStr nom_b)) (length (joined df_a df_b)))
    /\ (nom_a <> "des_2_agences" -> nom_b <> "des_2_agences" ->
        labels res
        = [col_agence; col_agence_comparee; col_code_article; col_designation;
           col_stock_theorique; col_stock_physique; col_ecart_de nom_a;
           col_ecart_de nom_b; col_ecart_des_2_agences; col_somme_ecarts]).
Proof.
  intros Hc Hne. apply String.eqb_neq in Hne.
  assert (Hne' : String.eqb nom_b nom_a = false)
    by (by rewrite String.eqb_sym).
  destruct (comparer_indexer argsort nom_a nom_b df_a df_b Hc Hne)
    as (ea & eb & indexer & Hea & Heb & Hl & Hres & Hperm).
  eexists. split; [exact Hres|].
  assert (Hrange : forall i, In i indexer -> (i < length (joined df_a df_b))%nat).
  { intros i Hi. apply (Permutation_in _ Hperm) in Hi. apply in_seq in Hi. lia. }
  assert (Hlen : length indexer = length (joined df_a df_b))
    by (by rewrite (Permutation_length Hperm), length_seq).
  split; [|split; [|split]].
  - apply all_length_sorted_by; [exact Hperm|].
    apply all_length_setitem; [exact Hl|apply all_length_res_net].
  - rewrite getitem_sorted_by, getitem_setitem_ne by reflexivity.
    unfold res_net. rewrite getitem_setitem_ne by reflexivity.
    unfold base_frame. frame_step.
    by rewrite take_idx_repeat_all, Hlen.
  - rewrite getitem_sorted_by, getitem_setitem_ne by reflexivity.
    unfold res_net. rewrite getitem_setitem_ne by reflexivity.
    unfold base_frame. frame_step.
    by rewrite take_idx_repeat_all, Hlen.
  - intros Ha Hb. apply String.eqb_neq in Ha, Hb.
    rewrite labels_sorted_by. unfold res_net, base_frame.
    frame_step. rewrite !col_ecart_de_reserved, Ha, Hb.
    frame_step. reflexivity.
Qed.

Lemma comparer_shape_witness :
  argsort_contract argsort_stable
  /\ "Nord" <> "Sud"
  /\ exists res,
       comparer_deux_agences argsort_stable "Nord" table_AAB "Sud" table_AC
         = inr res
       /\ all_length 2 res
       /\ getitem col_agence res = inr (repeat (VCell (CStr "Nord")) 2)
       /\ getitem col_agence_comparee res = inr (repeat (VCell (CStr "Sud")) 2)
       /\ ("Nord" <> "des_2_agences" -> "Sud" <> "des_2_agences" ->
           labels res
           = [col_agence; col_agence_comparee; col_code_article;
              col_designation; col_stock_theorique; col_stock_physique;
              col_ecart_de "Nord"; col_ecart_de "Sud";
              col_ecart_des_2_agences; col_somme_ecarts]).
Proof.
  split; [exact argsort_stable_contract|]. split; [discriminate|].
  exact (comparer_shape argsort_stable "Nord" "Sud" table_AAB table_AC
           argsort_stable_contract ltac:(discriminate)).
Defined.

(** X12: when the two names differ and neither is "des_2_agences", the rows
    of the comparison are the matched pairs in some order, and in the row of
    a pair the column of the reference holds the discrepancy read from the
    reference row and the column of the other agency the discrepancy read
    from the other row, as they were loaded. *)
Theorem comparer_discrepancy_columns (argsort : list Q -> list nat)
    (nom_a nom_b : string) (df_a df_b : list InvRow) :
  argsort_contract argsort ->
  nom_a <> nom_b -> nom_a <> "des_2_agences" -> nom_b <> "des_2_agences" ->
  exists (res : frame) (J : list (InvRow * InvRow)),
    comparer_deux_agences argsort nom_a df_a nom_b df_b = inr res
    /\ Permutation J (joined df_a df_b)
    /\ getitem (col_ecart_de nom_a) res
       = inr (map (fun p => VNum (ecart (fst p))) J)
    /\ getitem (col_ecart_de nom_b) res
       = inr (map (fun p => VNum (ecart (snd p))) J).
Proof.
  intros Hc Hne Ha Hb.
  destruct (derived_columns argsort nom_a nom_b df_a df_b Hc Hne Ha Hb)
    as (res & J & Hres & HJ & H1 & H2 & _).
  by exists res, J.
Qed.

Lemma comparer_discrepancy_columns_witness :
  argsort_contract argsort_stable
  /\ "A" <> "B" /\ "A" <> "des_2_agences" /\ "B" <> "des_2_agences"
  /\ exists (res : frame) (J : list (InvRow * InvRow)),
       comparer_deux_agences argsort_stable "A" table_ref_ties
                             "B" table_other_ties = inr res
       /\ Permutation J (joined table_ref_ties table_other_ties)
       /\ getitem (col_ecart_de "A") res
          = inr (map (fun p => VNum (ecart (fst p))) J)
       /\ getitem (col_ecart_de "B") res
          = inr (map (fun p => VNum (ecart (snd p))) J).
Proof.
  split; [exact argsort_stable_contract|].
  split; [discriminate|]. split; [discriminate|]. split; [discriminate|].
  exact (comparer_discrepancy_columns argsort_stable "A" "B" table_ref_ties
           table_other_ties argsort_stable_contract
           ltac:(discriminate) ltac:(discriminate) ltac:(discriminate)).
Defined.

(** X13: a comparison fails exactly when the two agencies bear the same
    name, and the failure is then the missing label of the discrepancy
    column: the merge has renamed the two clashing columns. *)
Theorem comparer_fails_iff_same_name (argsort : list Q -> list nat)
    (nom_a nom_b : string) (df_a df_b : list InvRow) :
  ((exists e, comparer_deux_agences argsort nom_a df_a nom_b df_b = inl e)
   <-> nom_a = nom_b)
  /\ (forall e, comparer_deux_agences argsort nom_a df_a nom_b df_b = inl e ->
        e = KeyError (col_ecart_de nom_a)).
Proof.
  destruct (String.eqb_spec nom_a nom_b) as [->|Hne].
  - rewrite comparer_same_name. split; [|congruence].
    split; [done|]. intros _. by eexists.
  - apply String.eqb_neq in Hne.
    destruct (comparer_inr argsort nom_a nom_b df_a df_b Hne)
      as (ea & eb & _ & _ & ->).
    apply String.eqb_neq in Hne. split; [|discriminate].
    split; [by intros [e ?]|done].
Qed.

(** X14: for two agencies of different names, the comparison has no row
    exactly when the two tables share no item code; this is not a failure. *)
Theorem comparer_empty_iff_no_common_code (argsort : list Q -> list nat)
    (nom_a nom_b : string) (df_a df_b : list InvRow) :
  argsort_contract argsort ->
  nom_a <> nom_b ->
  exists res c,
    comparer_deux_agences argsort nom_a df_a nom_b df_b = inr res
    /\ getitem col_code_article res = inr c
    /\ (c = [] <->
        forall a b, In a df_a -> In b df_b ->
                    code_article a <> code_article b).
Proof.
  intros Hc Hne. apply String.eqb_neq in Hne.
  destruct (comparer_codes argsort nom_a nom_b df_a df_b Hc Hne)
    as (res & J & Hres & HJ & Hcode).
  eexists res, _. split; [exact Hres|]. split; [exact Hcode|].
  split.
  - intros Hnil a b Ha Hb Heq.
    assert (Hin : In (a, b) J).
    { apply (Permutation_in _ (Permutation_sym HJ)). by apply in_joined. }
    destruct J; [done|discriminate].
  - intros Hno. destruct J as [|p J]; [reflexivity|]. exfalso.
    assert (Hin : In p (joined df_a df_b))
      by (apply (Permutation_in _ HJ); by left).
    apply in_joined in Hin as (Ha & Hb & Heq). by apply (Hno _ _ Ha Hb).
Qed.

Lemma comparer_empty_iff_no_common_code_witness :
  argsort_contract argsort_stable
  /\ "A" <> "B"
  /\ exists res c,
       comparer_deux_agences argsort_stable "A" table_ref_ties "B" table_AC
         = inr res
       /\ getitem col_code_article res = inr c
       /\ (c = [] <->
           forall a b, In a table_ref_ties -> In b table_AC ->
                       code_article a <> code_article b).
Proof.
  split; [exact argsort_stable_contract|]. split; [discriminate|].
  exact (comparer_empty_iff_no_common_code argsort_stable "A" "B"
           table_ref_ties table_AC argsort_stable_contract
           ltac:(discriminate)).
Defined.

(** * Further properties of report generation *)

(** * Further properties of the report generation *)

Lemma comparer_inl (argsort : list Q -> list nat) (nom_a nom_b : string)
    (df_a df_b : list InvRow) (e : exn) :
  comparer_deux_agences argsort nom_a df_a nom_b df_b = inl e ->
  nom_a = nom_b /\ e = KeyError (col_ecart_de nom_a).
Proof.
  destruct (String.eqb_spec nom_a nom_b) as [->|Hne].
  - rewrite comparer_same_name. by intros [= <-].
  - apply String.eqb_neq in Hne.
    destruct (comparer_inr argsort nom_a nom_b df_a df_b Hne)
      as (ea & eb & _ & _ & ->). discriminate.
Qed.

(** Whatever the sort kernel, a comparison has ten columns at most. *)
Lemma comparer_ncols (argsort : list Q -> list nat) (nom_a nom_b : string)
    (df_a df_b : list InvRow) (res : frame) :
  comparer_deux_agences argsort nom_a df_a nom_b df_b = inr res ->
  nom_a <> nom_b /\ (length res <= 10)%nat.
Proof.
  destruct (String.eqb_spec nom_a nom_b) as [->|Hne];
    [by rewrite comparer_same_name|].
  intros Hres. split; [done|]. apply String.eqb_neq in Hne.
  destruct (comparer_inr argsort nom_a nom_b df_a df_b Hne)
    as (ea & eb & _ & _ & Hcmp).
  assert (res = sorted_by (nargsort_desc argsort (col_abs (col_add ea eb)))
                  (setitem col_somme_ecarts (col_add ea eb)
                     (res_net nom_a nom_b (joined df_a df_b)))) as ->
    by congruence.
  unfold sorted_by. rewrite length_map.
  etransitivity; [apply length_setitem_le|]. unfold res_net.
  pose proof (length_setitem_le col_ecart_des_2_agences
    (col_sub (map (fun p => VNum (ecart (snd p))) (joined df_a df_b))
             (map (fun p => VNum (ecart (fst p))) (joined df_a df_b)))
    (base_frame nom_a nom_b (joined df_a df_b))) as Hle.
  assert (Hb : length (base_frame nom_a nom_b (joined df_a df_b)) = 8%nat)
    by reflexivity.
  lia.
Qed.

(** ** One write to the workbook *)

Lemma map_fst_write_cells (s : string) (df : frame) (W : workbook) :
  map fst (write_cells s df W) = map fst W.
Proof.
  unfold write_cells. rewrite map_map. apply map_ext. intros [n fs]. simpl.
  by destruct (String.eqb n s).
Qed.

Lemma good_write_cells (s : string) (df : frame) (W : workbook) :
  Forall good_sheet W -> Forall good_sheet (write_cells s df W).
Proof.
  unfold write_cells. intros H. apply Forall_map.
  eapply Forall_impl; [exact H|]. intros [n fs] (H1 & H2 & H3 & H4). simpl.
  destruct (String.eqb n s); [|done]. unfold good_sheet. simpl.
  repeat split; try done. by destruct fs.
Qed.

Lemma nb_writes_app (W1 W2 : workbook) :
  nb_writes (W1 ++ W2)%list = (nb_writes W1 + nb_writes W2)%nat.
Proof. unfold nb_writes. by rewrite map_app, list_sum_app. Qed.

Lemma nb_writes_write_cells_absent (s : string) (df : frame) (W : workbook) :
  ~ In s (map fst W) -> write_cells s df W = W.
Proof.
  induction W as [|[n fs] W IH]; simpl; [done|]. intros Hnot.
  destruct (String.eqb_spec n s) as [->|_]; [exfalso; apply Hnot; by left|].
  f_equal. apply IH. intros Hin. apply Hnot. by right.
Qed.

Lemma nb_writes_write_cells (s : string) (df : frame) (W : workbook) :
  NoDup (map fst W) -> In s (map fst W) ->
  nb_writes (write_cells s df W) = S (nb_writes W).
Proof.
  induction W as [|[n fs] W IH]; simpl; [by intros _ []|].
  intros Hnd Hin. apply NoDup_cons in Hnd as [Hn Hnd].
  change (nb_writes ((n, fs) :: W)) with (length fs + nb_writes W)%nat.
  destruct (String.eqb_spec n s) as [->|Hne].
  - change (nb_writes ((s, (fs ++ [df])%list) :: write_cells s df W))
      with (length (fs ++ [df])%list + nb_writes (write_cells s df W))%nat.
    rewrite nb_writes_write_cells_absent.
    + rewrite length_app. simpl. lia.
    + intros H. apply Hn. by apply list_elem_of_In.
  - change (nb_writes ((n, fs) :: write_cells s df W))
      with (length fs + nb_writes (write_cells s df W))%nat.
    rewrite IH; [lia|done|]. destruct Hin as [Heq|Hin]; [done|exact Hin].
Qed.

Lemma book_ok_names (W : workbook) : book_ok W -> NoDup (map fst W).
Proof. intros [Hnd _]. by apply (NoDup_fmap_1 Py.lower). Qed.

(** A write that succeeds, under a name that is not empty and has 31
    characters at most: the frame went to the worksheet of that name, or to
    a new worksheet under a valid name that no worksheet bears, even with
    the case ignored. *)
Lemma to_excel_inr (df : frame) (s : string) (W W' : workbook) :
  s <> "" -> (String.length s <= 31)%nat ->
  to_excel df s W = inr W' ->
  (In s (map fst W) /\ W' = write_cells s df W)
  \/ (~ In (Py.lower s) (map Py.lower (map fst W))
      /\ valid_sheetname s = true
      /\ W' = (W ++ [(s, [df])])%list).
Proof.
  intros Hne Hlen. unfold to_excel.
  destruct ((max_rows <? Z.of_nat (nrows df))%Z
            || (max_cols <? Z.of_nat (length df))%Z); [discriminate|].
  destruct (has_sheet s W) eqn:Hs.
  - intros [= <-]. left. split; [by apply has_sheet_In|reflexivity].
  - rewrite check_sheetname_cases by done.
    destruct (valid_sheetname s); [|discriminate]. simpl.
    destruct (existsb _ W) eqn:Hex; [discriminate|]. simpl.
    intros [= <-]. right. split; [by apply lower_clash_false|done].
Qed.

(** A write that fails: the frame is too large, or a new worksheet was
    needed and its name is not valid or is, but for the case, the name of a
    worksheet. *)
Lemma to_excel_inl (df : frame) (s : string) (W : workbook) (e : exn) :
  s <> "" -> (String.length s <= 31)%nat ->
  to_excel df s W = inl e ->
  (e = SheetTooLarge
   /\ ((max_rows < Z.of_nat (nrows df))%Z \/ (max_cols < Z.of_nat (length df))%Z))
  \/ (e = InvalidWorksheetName s /\ valid_sheetname s = false)
  \/ (e = DuplicateWorksheetName s
      /\ exists s', In s' (map fst W) /\ s' <> s /\ Py.lower s' = Py.lower s).
Proof.
  intros Hne Hlen. unfold to_excel.
  destruct (Z.ltb_spec max_rows (Z.of_nat (nrows df))) as [Hr|_].
  { intros [= <-]. left. split; [done|by left]. }
  destruct (Z.ltb_spec max_cols (Z.of_nat (length df))) as [Hc|_].
  { intros [= <-]. left. split; [done|by right]. }
  simpl. destruct (has_sheet s W) eqn:Hs; [discriminate|].
  rewrite check_sheetname_cases by done.
  destruct (valid_sheetname s); simpl.
  - destruct (existsb _ W) eqn:Hex; [|discriminate]. simpl.
    intros [= <-]. right. right. split; [done|].
    apply existsb_exists in Hex as (ws & Hin & Heq).
    apply String.eqb_eq in Heq. exists (fst ws).
    split; [by apply in_map|]. split; [|done].
    intros <-. apply not_true_iff_false in Hs. apply Hs.
    apply has_sheet_In. by apply in_map.
  - intros [= <-]. right. left. done.
Qed.

(** A write that succeeds keeps the workbook well formed, adds one frame,
    and adds the name to those of the workbook. *)
Lemma to_excel_step (df : frame) (s : string) (W W' : workbook) :
  s <> "" -> (String.length s <= 31)%nat ->
  book_ok W ->
  to_excel df s W = inr W' ->
  book_ok W'
  /\ (forall t, In t (map fst W') <-> In t (map fst W) \/ t = s)
  /\ nb_writes W' = S (nb_writes W).
Proof.
  intros Hne Hlen Hok Hw. pose proof (book_ok_names W Hok) as Hnd.
  destruct Hok as [Hlow Hgood].
  apply to_excel_inr in Hw as [[Hin ->]|(Hfresh & Hvalid & ->)]; try done.
  - split; [|split].
    + split; [by rewrite map_fst_write_cells|by apply good_write_cells].
    + intros t. rewrite map_fst_write_cells. split; [by left|].
      by intros [H| ->].
    + by apply nb_writes_write_cells.
  - split; [|split].
    + split.
      * rewrite !map_app. simpl. apply NoDup_app. split; [done|].
        split; [|apply NoDup_singleton].
        intros x Hx Hx'. apply list_elem_of_In in Hx.
        apply list_elem_of_singleton in Hx' as ->. done.
      * apply Forall_app. split; [done|]. constructor; [|constructor].
        unfold good_sheet. simpl. done.
    + intros t. rewrite map_app, in_app_iff. simpl. split.
      * intros [H|[<-|[]]]; [by left|by right].
      * intros [H| ->]; [by left|right; by left].
    + rewrite nb_writes_app. unfold nb_writes at 2. simpl. lia.
Qed.

(** ** The workbook of a reference *)

(** The inner loop that runs to its end: every other agency bears another
    name than the reference, the workbook stays well formed, its worksheets
    are those it had and those named by the cut names, and one frame was
    written per other agency. *)
Lemma sheets_for_inr (argsort : list Q -> list nat) (idx : nat) (nom : string)
    (df : list InvRow) (others : list (nat * (string * list InvRow)))
    (W W' : workbook) :
  sheets_for argsort idx nom df others W = inr W' ->
  book_ok W ->
  (forall j o, In (j, o) others -> j <> idx -> fst o <> nom)
  /\ book_ok W'
  /\ (forall s, In s (map fst W') <->
        In s (map fst W)
        \/ In s (sheet_names nom
                   (map snd (List.filter (fun o => negb (Nat.eqb (fst o) idx))
                               others))))
  /\ nb_writes W'
     = (nb_writes W
        + length (List.filter (fun o => negb (Nat.eqb (fst o) idx)) others))%nat.
Proof.
  revert W. unfold sheet_names.
  induction others as [|[j [nom_o df_o]] others IH]; intros W;
    cbn [sheets_for List.filter fst].
  - intros [= <-] Hok. split; [by intros j o []|]. split; [done|].
    split; [|simpl; lia]. intros s. simpl. tauto.
  - destruct (Nat.eqb_spec j idx) as [->|Hne]; cbn [negb].
    + intros Hs Hok. destruct (IH W Hs Hok) as (Hnames & Hok' & Hin & Hnb).
      split; [|done].
      intros k o [[= <- <-]|Ho] Hk; [done|]. by apply (Hnames k o).
    + destruct (comparer_deux_agences argsort nom df nom_o df_o) as [e|res]
        eqn:Hcmp; [discriminate|]. cbn [bind].
      apply comparer_ncols in Hcmp as [Hdiff _].
      destruct (to_excel res (Py.slice_to 31 (nom ++ "_vs_" ++ nom_o)) W)
        as [e|W1] eqn:Hw; [discriminate|]. cbn [bind].
      intros Hs Hok.
      destruct (to_excel_step _ _ _ _ (sheet_name_not_empty nom nom_o)
                  (sheet_name_length nom nom_o) Hok Hw)
        as (Hok1 & Hin1 & Hnb1).
      destruct (IH W1 Hs Hok1) as (Hnames & Hok' & Hin & Hnb).
      split; [|split; [done|split]].
      * intros k o [[= <- <-]|Ho] Hk; [simpl; congruence|].
        by apply (Hnames k o).
      * intros s. rewrite Hin, Hin1. cbn [map snd fst]. split.
        -- intros [[H| ->]|H]; [by left|right; by left|right; by right].
        -- intros [H|[<-|H]]; [left; by left|left; by right|by right].
      * rewrite Hnb, Hnb1. simpl. lia.
Qed.

(** The inner loop that stops: the exception comes from the comparison with
    an agency that bears the name of the reference, or from the writer, for
    one of the other agencies. *)
Lemma sheets_for_inl (argsort : list Q -> list nat) (idx : nat) (nom : string)
    (df : list InvRow) (others : list (nat * (string * list InvRow)))
    (W : workbook) (e : exn) :
  sheets_for argsort idx nom df others W = inl e ->
  book_ok W ->
  exists j o, In (j, o) others /\ j <> idx
    /\ ((fst o = nom /\ e = KeyError (col_ecart_de nom))
        \/ (exists res,
              comparer_deux_agences argsort nom df (fst o) (snd o) = inr res
              /\ (max_rows < Z.of_nat (nrows res))%Z
              /\ e = SheetTooLarge)
        \/ (valid_sheetname (Py.slice_to 31 (nom ++ "_vs_" ++ fst o)) = false
            /\ e = InvalidWorksheetName (Py.slice_to 31 (nom ++ "_vs_" ++ fst o)))
        \/ (e = DuplicateWorksheetName (Py.slice_to 31 (nom ++ "_vs_" ++ fst o))
            /\ exists s',
                 (In s' (map fst W)
                  \/ In s' (sheet_names nom
                       (map snd (List.filter
                                   (fun o => negb (Nat.eqb (fst o) idx)) others))))
                 /\ s' <> Py.slice_to 31 (nom ++ "_vs_" ++ fst o)
                 /\ Py.lower s'
                    = Py.lower (Py.slice_to 31 (nom ++ "_vs_" ++ fst o)))).
Proof.
  revert W. unfold sheet_names.
  induction others as [|[j [nom_o df_o]] others IH]; intros W;
    cbn [sheets_for List.filter fst]; [discriminate|].
  destruct (Nat.eqb_spec j idx) as [->|Hne]; cbn [negb].
  - intros Hs Hok. destruct (IH W Hs Hok) as (k & o & Hin & Hk & Hcases).
    exists k, o. split; [by right|]. split; [done|exact Hcases].
  - destruct (comparer_deux_agences argsort nom df nom_o df_o) as [e'|res]
      eqn:Hcmp; cbn [bind].
    { intros [= <-] _. apply comparer_inl in Hcmp as [<- ->].
      exists j, (nom, df_o). split; [by left|]. split; [done|]. by left. }
    destruct (to_excel res (Py.slice_to 31 (nom ++ "_vs_" ++ nom_o)) W)
      as [e'|W1] eqn:Hw; cbn [bind].
    { intros [= <-] _. exists j, (nom_o, df_o). split; [by left|].
      split; [done|]. right. cbn [fst snd].
      apply to_excel_inl in Hw
        as [[-> [Hr|Hcol]]|[[-> Hv]|[-> (s' & Hin & Hs' & Hl)]]];
        [| | | |apply sheet_name_not_empty|apply sheet_name_length].
      - left. by exists res.
      - apply comparer_ncols in Hcmp as [_ Hle]. unfold max_cols in Hcol. lia.
      - right. left. done.
      - right. right. split; [done|]. exists s'. split; [by left|done]. }
    intros Hs Hok.
    destruct (to_excel_step _ _ _ _ (sheet_name_not_empty nom nom_o)
                (sheet_name_length nom nom_o) Hok Hw)
      as (Hok1 & Hin1 & Hnb1).
    destruct (IH W1 Hs Hok1) as (k & o & Hin & Hk & Hcases).
    exists k, o. split; [by right|]. split; [done|].
    destruct Hcases as [H|[H|[H|(-> & s' & Hs' & Hne' & Hl)]]];
      [by left|right; by left|right; right; by left|].
    right. right. right. split; [done|]. exists s'. split; [|done].
    cbn [map snd fst]. destruct Hs' as [Hs'|Hs'].
    + apply Hin1 in Hs' as [Hs'| ->]; [by left|right; by left].
    + right. by right.
Qed.

Lemma book_ok_nil : book_ok [].
Proof. split; constructor. Qed.

(** ** The documents of a run *)

Lemma reports_docs (argsort : list Q -> list nat)
    (refs all : list (nat * (string * list InvRow))) (doc : document) :
  In doc (fst (reports argsort refs all)) ->
  exists r, In r refs
    /\ file_name doc = "rapport_inventaire_" ++ fst (snd r) ++ ".xlsx"
    /\ sheets_for argsort (fst r) (fst (snd r)) (snd (snd r)) all []
       = inr (sheets doc).
Proof.
  induction refs as [|[i [nom df]] refs IH]; cbn [reports]; [by intros []|].
  destruct (sheets_for argsort i nom df all []) as [e|sh] eqn:Hsh;
    [by intros []|].
  destruct (reports argsort refs all) as [docs stop]. cbn [fst].
  intros [<-|Hin].
  - exists (i, (nom, df)). split; [by left|]. by split.
  - destruct (IH Hin) as (r & Hr & Hname & Hs). exists r.
    split; [by right|]. by split.
Qed.

Lemma reports_complete (argsort : list Q -> list nat)
    (refs all : list (nat * (string * list InvRow))) (docs : list document) :
  reports argsort refs all = (docs, None) ->
  Forall2 (fun doc r =>
       file_name doc = "rapport_inventaire_" ++ fst (snd r) ++ ".xlsx"
       /\ sheets_for argsort (fst r) (fst (snd r)) (snd (snd r)) all []
          = inr (sheets doc)) docs refs.
Proof.
  revert docs. induction refs as [|[i [nom df]] refs IH]; intros docs;
    cbn [reports]; [intros [= <-]; constructor|].
  destruct (sheets_for argsort i nom df all []) as [e|sh] eqn:Hsh;
    [discriminate|].
  destruct (reports argsort refs all) as [docs' stop] eqn:Hr.
  intros [= <- ->]. constructor; [by split|]. by apply IH.
Qed.

Lemma reports_stopped (argsort : list Q -> list nat)
    (refs all : list (nat * (string * list InvRow))) (docs : list document)
    (e : exn) :
  reports argsort refs all = (docs, Some e) ->
  (length docs < length refs)%nat
  /\ exists r, In r refs
       /\ sheets_for argsort (fst r) (fst (snd r)) (snd (snd r)) all [] = inl e.
Proof.
  revert docs. induction refs as [|[i [nom df]] refs IH]; intros docs;
    cbn [reports]; [discriminate|].
  destruct (sheets_for argsort i nom df all []) as [e'|sh] eqn:Hsh.
  - intros [= <- <-]. split; [simpl; lia|].
    exists (i, (nom, df)). split; [by left|done].
  - destruct (reports argsort refs all) as [docs' stop] eqn:Hr.
    intros [= <- ->]. destruct (IH docs' eq_refl) as (Hlen & r & Hin & Hs).
    split; [simpl; lia|]. exists r. split; [by right|done].
Qed.

Lemma documents_of_generer (argsort : list Q -> list nat)
    (infos : list (string * list InvRow)) (doc : document) :
  In doc (documents_of (generer_rapports argsort infos)) ->
  In doc (fst (reports argsort (enumerate infos) (enumerate infos))).
Proof.
  unfold generer_rapports. destruct (length infos <? 2)%nat; [by intros []|].
  by destruct (reports argsort _ _) as [docs [e|]].
Qed.

(** A run that completes: the reports of all the agencies. *)
Lemma generated_reports (argsort : list Q -> list nat)
    (infos : list (string * list InvRow)) (docs : list document) :
  generer_rapports argsort infos = Generated docs ->
  (2 <= length infos)%nat
  /\ Forall2 (fun doc r =>
       file_name doc = "rapport_inventaire_" ++ fst (snd r) ++ ".xlsx"
       /\ sheets_for argsort (fst r) (fst (snd r)) (snd (snd r))
            (enumerate infos) []
          = inr (sheets doc)) docs (enumerate infos).
Proof.
  unfold generer_rapports.
  destruct (Nat.ltb_spec (length infos) 2) as [|Hlen]; [discriminate|].
  destruct (reports argsort (enumerate infos) (enumerate infos))
    as [docs' [e|]] eqn:Hr; [discriminate|].
  intros [= <-]. split; [lia|]. by apply reports_complete.
Qed.

Lemma generated_names (argsort : list Q -> list nat)
    (infos : list (string * list InvRow)) (docs : list document) :
  generer_rapports argsort infos = Generated docs ->
  NoDup (map fst infos).
Proof.
  intros Hgen. apply generated_reports in Hgen as [Hlen Hall].
  apply NoDup_alt. intros i j nom Hi Hj.
  rewrite lookup_map in Hi, Hj.
  destruct (infos !! i) as [[nom_i df_i]|] eqn:Ei; [|discriminate].
  destruct (infos !! j) as [[nom_j df_j]|] eqn:Ej; [|discriminate].
  simpl in Hi, Hj. injection Hi as ->. injection Hj as ->.
  destruct (decide (i = j)) as [|Hne]; [done|]. exfalso.
  assert (Hr : enumerate infos !! i = Some (i, (nom, df_i)))
    by (by rewrite lookup_enumerate, Ei).
  destruct (Forall2_lookup_r _ _ _ _ _ Hall Hr) as (doc & _ & _ & Hs).
  cbn [fst snd] in Hs.
  apply sheets_for_inr in Hs as [Hnames _]; [|apply book_ok_nil].
  apply (Hnames j (nom, df_j));
    [by apply in_enumerate_2|intros Heq; apply Hne; by symmetry|done].
Qed.



(** With a reference name of 27 characters the two comparisons of the first
    document share one sheet. *)
Example long_reference_one_sheet :
  map (fun doc => map (fun ws => (fst ws, length (snd ws))) (sheets doc))
      (documents_of (generer_rapports argsort_stable agencies_long_reference))
  = [ [("Agence-de-la-region-du-Nord_vs_", 2%nat)];
      [("Lyon_vs_Agence-de-la-region-du-", 1%nat); ("Lyon_vs_Paris", 1%nat)];
      [("Paris_vs_Agence-de-la-region-du", 1%nat); ("Paris_vs_Lyon", 1%nat)] ].
Proof. vm_compute. reflexivity. Qed.

Lemma slice_to_rest (n : nat) (s : string) :
  exists rest, s = Py.slice_to n s ++ rest.
Proof.
  revert s. induction n as [|n IH]; intros [|c s].
  - by exists "".
  - by exists (String c s).
  - by exists "".
  - destruct (IH s) as [rest Hr]. exists rest.
    change (Py.slice_to (S n) (String c s)) with (String c (Py.slice_to n s)).
    rewrite append_cons. by rewrite <- Hr.
Qed.

Lemma slice_to_append (n : nat) (s t : string) :
  (n <= String.length s)%nat -> Py.slice_to n (s ++ t) = Py.slice_to n s.
Proof.
  revert s. induction n as [|n IH]; intros [|c s] H.
  - by destruct t.
  - reflexivity.
  - simpl in H. lia.
  - rewrite append_cons. simpl. rewrite IH; [reflexivity|]. simpl in H. lia.
Qed.

(** X16: every sheet of every document offered has a name of 31 characters
    at most; the cut keeps the first characters of the text, and leaves a
    text of 31 characters or fewer as it is. *)
Theorem sheet_names_bounded (argsort : list Q -> list nat)
    (infos : list (string * list InvRow)) :
  Forall (fun doc =>
            Forall (fun s => (String.length (fst s) <= 31)%nat) (sheets doc))
         (documents_of (generer_rapports argsort infos))
  /\ (forall s : string,
        (String.length s <= 31)%nat -> Py.slice_to 31 s = s)
  /\ (forall s : string, exists rest, s = Py.slice_to 31 s ++ rest).
Proof.
  split; [|split; [apply slice_to_short|apply slice_to_rest]].
  apply Forall_forall. intros doc Hdoc. apply list_elem_of_In in Hdoc.
  apply documents_of_generer, reports_docs in Hdoc as (r & _ & _ & Hsh).
  apply sheets_for_inr in Hsh as (_ & [_ Hgood] & _); [|apply book_ok_nil].
  eapply Forall_impl; [exact Hgood|]. by intros ws (_ & Hlen & _).
Qed.

(** X17: when the name of the reference has 27 characters or more, the cut
    falls before the name of the other agency: all the sheets of its document
    get the same name. *)
Theorem long_reference_same_sheet_name (nom_ref other other' : string) :
  (27 <= String.length nom_ref)%nat ->
  Py.slice_to 31 (nom_ref ++ "_vs_" ++ other)
  = Py.slice_to 31 (nom_ref ++ "_vs_" ++ other').
Proof.
  intros Hlen.
  assert (H : (31 <= String.length (nom_ref ++ "_vs_"))%nat)
    by (rewrite length_append; simpl; lia).
  rewrite <- !(append_assoc nom_ref "_vs_").
  by rewrite !(slice_to_append 31 (nom_ref ++ "_vs_") _ H).
Qed.

Lemma long_reference_same_sheet_name_witness :
  (27 <= String.length long_name)%nat
  /\ Py.slice_to 31 (long_name ++ "_vs_" ++ "Lyon")
     = Py.slice_to 31 (long_name ++ "_vs_" ++ "Paris").
Proof.
  assert (H : (27 <= String.length long_name)%nat) by (simpl; lia).
  split; [exact H|].
  exact (long_reference_same_sheet_name long_name "Lyon" "Paris" H).
Defined.

(** * Further properties of the collection of agencies *)

(** X18: every agency retained comes from a slot with a file that loads:
    its name is the trimmed name typed in the slot, is not empty and has no
    surrounding white space, and its table is what the loader returns on the
    file of the slot. *)
Theorem agence_infos_sound (slots : list (string * option uploaded)) :
  Forall (fun p =>
            fst p <> "" /\ Py.strip (fst p) = fst p
            /\ exists nom f, In (nom, Some f) slots
                 /\ fst p = Py.strip nom
                 /\ charger_inventaire f = inr (snd p))
         (agence_infos slots).
Proof.
  unfold agence_infos.
  induction slots as [|[nom [f|]] slots IH]; cbn [flat_map].
  - constructor.
  - assert (IH' : Forall (fun p =>
        fst p <> "" /\ Py.strip (fst p) = fst p
        /\ exists nom0 f0, In (nom0, Some f0) ((nom, Some f) :: slots)
             /\ fst p = Py.strip nom0
             /\ charger_inventaire f0 = inr (snd p))
        (flat_map (fun '(nom_agence, up) =>
           match up with
           | Some f =>
               if negb (String.eqb (Py.strip nom_agence) "") then
                 match charger_inventaire f with
                 | inr df_inv => [(Py.strip nom_agence, df_inv)]
                 | inl _ => []
                 end
               else []
           | None => []
           end) slots)).
    { eapply Forall_impl; [exact IH|].
      intros p (H1 & H2 & nom0 & f0 & Hin & H3 & H4).
      split; [done|]. split; [done|]. exists nom0, f0. split; [by right|done]. }
    destruct (String.eqb_spec (Py.strip nom) "") as [Heq|Hne]; cbn [negb];
      [exact IH'|].
    destruct (charger_inventaire f) as [e|df] eqn:Hload; [exact IH'|].
    apply Forall_app. split; [|exact IH'].
    constructor; [|constructor]. simpl.
    split; [done|]. split; [apply strip_idem|].
    exists nom, f. split; [by left|]. by split.
  - eapply Forall_impl; [exact IH|].
    intros p (H1 & H2 & nom0 & f0 & Hin & H3 & H4).
    split; [done|]. split; [done|]. exists nom0, f0. split; [by right|done].
Qed.

Lemma agence_infos_app (s1 s2 : list (string * option uploaded)) :
  agence_infos (s1 ++ s2) = (agence_infos s1 ++ agence_infos s2)%list.
Proof. unfold agence_infos. apply flat_map_app. Qed.

Lemma agence_infos_invalid (slot : string * option uploaded) :
  valid_slot slot = false -> agence_infos [slot] = [].
Proof.
  destruct slot as [nom [f|]]; unfold valid_slot, agence_infos; simpl;
    [|reflexivity].
  destruct (negb (String.eqb (Py.strip nom) "")); simpl; [|reflexivity].
  by destruct (charger_inventaire f).
Qed.

(** X19: a slot without a file, with a blank name or with a file that does
    not load is skipped without any effect on the other agencies, which are
    retained in the order of the slots. *)
Theorem agence_infos_skips_invalid (pre post : list (string * option uploaded))
    (slot : string * option uploaded) :
  valid_slot slot = false ->
  agence_infos (pre ++ slot :: post)
  = (agence_infos pre ++ agence_infos post)%list.
Proof.
  intros Hbad.
  change (slot :: post) with ([slot] ++ post)%list.
  by rewrite !agence_infos_app, (agence_infos_invalid slot Hbad).
Qed.

Lemma agence_infos_skips_invalid_witness :
  valid_slot (slot_no_file "B") = false
  /\ agence_infos ([slot_ok "A"] ++ slot_no_file "B" :: [slot_ok "C"])
     = (agence_infos [slot_ok "A"] ++ agence_infos [slot_ok "C"])%list.
Proof.
  split; [reflexivity|].
  apply (agence_infos_skips_invalid [slot_ok "A"] [slot_ok "C"]
           (slot_no_file "B")).
  reflexivity.
Defined.

(** * The counter of agencies *)

Lemma foldl_nb_agences (clicks : list bool) (n : nat) :
  foldl (fun session clicked => Some (nb_agences_run session clicked))
        (Some n) clicks
  = Some (n + length (List.filter id clicks))%nat.
Proof.
  revert n. induction clicks as [|c clicks IH]; intros n; simpl.
  - f_equal. lia.
  - rewrite IH. destruct c; simpl; f_equal; lia.
Qed.

(** X20: in a session, after at least one run of the script, the number of
    agency slots is two plus the number of clicks on the button that adds an
    agency; it is never below two and never decreases. *)
Theorem nb_agences_counts_clicks (clicked : bool) (clicks : list bool) :
  nb_agences_session (clicked :: clicks)
  = Some (2 + length (List.filter id (clicked :: clicks)))%nat
  /\ (forall more n m,
        nb_agences_session (clicked :: clicks) = Some n ->
        nb_agences_session ((clicked :: clicks) ++ more)%list = Some m ->
        (2 <= n <= m)%nat).
Proof.
  assert (H : forall l, nb_agences_session (clicked :: l)
            = Some (2 + length (List.filter id (clicked :: l)))%nat).
  { intros l. unfold nb_agences_session. cbn [foldl].
    rewrite foldl_nb_agences. destruct clicked; simpl; f_equal; lia. }
  split; [apply H|].
  intros more n m.
  change ((clicked :: clicks) ++ more)%list
    with (clicked :: (clicks ++ more))%list.
  rewrite !H. intros Hn Hm.
  assert (Hf : length (List.filter id (clicked :: (clicks ++ more)))
               = (length (List.filter id (clicked :: clicks))
                  + length (List.filter id more))%nat).
  { change (clicked :: (clicks ++ more))%list
      with ((clicked :: clicks) ++ more)%list.
    by rewrite List.filter_app, length_app. }
  assert (n = (2 + length (List.filter id (clicked :: clicks)))%nat)
    by congruence.
  assert (m = (2 + length (List.filter id (clicked :: (clicks ++ more))))%nat)
    by congruence.
  lia.
Qed.

(** * Stopped generations *)

(** X21: when the generation stops on an exception, fewer documents than
    agencies were offered, and the exception comes from the comparison of a
    reference with another agency: the missing discrepancy label when the
    two bear the same name; the refusal of a comparison of more rows than a
    sheet; the refusal of a cut name that is not valid; or the refusal of a
    cut name that differs by the case only from the cut name of another
    comparison of the same reference. *)
Theorem aborted_on_exception (argsort : list Q -> list nat)
    (infos : list (string * list InvRow)) (docs : list document) (e : exn) :
  generer_rapports argsort infos = Aborted docs e ->
  (length docs < length infos)%nat
  /\ exists i j ref other,
       infos !! i = Some ref /\ infos !! j = Some other /\ i <> j
       /\ ((fst other = fst ref /\ e = KeyError (col_ecart_de (fst ref)))
           \/ (exists res,
                 comparer_deux_agences argsort (fst ref) (snd ref)
                                       (fst other) (snd other) = inr res
                 /\ (max_rows < Z.of_nat (nrows res))%Z
                 /\ e = SheetTooLarge)
           \/ (valid_sheetname
                 (Py.slice_to 31 (fst ref ++ "_vs_" ++ fst other)) = false
               /\ e = InvalidWorksheetName
                        (Py.slice_to 31 (fst ref ++ "_vs_" ++ fst other)))
           \/ (e = DuplicateWorksheetName
                     (Py.slice_to 31 (fst ref ++ "_vs_" ++ fst other))
               /\ exists k other',
                    infos !! k = Some other' /\ k <> i
                    /\ Py.slice_to 31 (fst ref ++ "_vs_" ++ fst other')
                       <> Py.slice_to 31 (fst ref ++ "_vs_" ++ fst other)
                    /\ Py.lower (Py.slice_to 31 (fst ref ++ "_vs_" ++ fst other'))
                       = Py.lower (Py.slice_to 31
                                     (fst ref ++ "_vs_" ++ fst other)))).
Proof.
  unfold generer_rapports. destruct (length infos <? 2)%nat; [discriminate|].
  destruct (reports argsort (enumerate infos) (enumerate infos))
    as [docs' [e'|]] eqn:Hr; [|discriminate].
  intros [= <- <-].
  destruct (reports_stopped argsort _ _ _ _ Hr)
    as (Hlen & [i [nom df]] & Hin & Hs).
  split.
  { unfold enumerate in Hlen. rewrite length_combine, length_seq in Hlen. lia. }
  cbn [fst snd] in Hs.
  apply sheets_for_inl in Hs as (j & o & Hj & Hne & Hcases);
    [|apply book_ok_nil].
  apply in_enumerate in Hin, Hj.
  exists i, j, (nom, df), o. split; [done|]. split; [done|].
  split; [by intros ->|]. cbn [fst snd].
  destruct Hcases as [H|[H|[H|(-> & s' & Hs' & Hdiff & Hlow)]]];
    [by left|right; by left|right; right; by left|].
  right. right. right. split; [done|].
  destruct Hs' as [[]|Hs']. rewrite filter_enumerate in Hs'.
  unfold sheet_names in Hs'. apply in_map_iff in Hs' as (o' & <- & Ho').
  apply list_elem_of_In, elem_of_delete_lookup in Ho' as (k & Hk & Ho').
  exists k, o'. done.
Qed.

Lemma aborted_on_exception_witness :
  generer_rapports argsort_stable agencies_A_b_B
  = Aborted [] (DuplicateWorksheetName "A_vs_B")
  /\ (length (@nil document) < length agencies_A_b_B)%nat.
Proof.
  assert (H : generer_rapports argsort_stable agencies_A_b_B
              = Aborted [] (DuplicateWorksheetName "A_vs_B"))
    by (vm_compute; reflexivity).
  split; [exact H|].
  exact (proj1 (aborted_on_exception _ _ _ _ H)).
Defined.

(** With the agencies A, B, B the document of A is offered, its two
    comparisons in one sheet, then the run stops. *)
Example agencies_A_B_B_one_document :
  map (fun doc => (file_name doc, map fst (sheets doc)))
      (documents_of (generer_rapports argsort_stable agencies_A_B_B))
  = [("rapport_inventaire_A.xlsx", ["A_vs_B"])].
Proof. vm_compute. reflexivity. Qed.

(** * Further properties of the loader: rows and columns *)

Lemma charger_inventaire_on (up : uploaded) (cols : list string)
    (data : list (list cell)) :
  read_frame up = inr {| columns := cols; rows := data |} ->
  charger_inventaire up =
    match missing_of (scan_headers (map clean_header cols)) with
    | _ :: _ =>
        inl (SchemaMismatch (missing_of (scan_headers (map clean_header cols)))
               (map clean_header cols))
    | [] =>
        match selected (map clean_header cols)
                (scan_headers (map clean_header cols)) with
        | [i0; i1; i2; i3; i4] =>
            inr (map (canonical_row i0 i1 i2 i3 i4)
                   (List.filter (fun r => notna (nth i0 r CNull)) data))
        | _ => inl LengthMismatch
        end
    end.
Proof.
  intros Hread. rewrite (charger_inventaire_unfold up _ Hread). simpl.
  destruct (missing_of _); [|reflexivity].
  unfold project. fold (selected (map clean_header cols)
                          (scan_headers (map clean_header cols))).
  destruct (selected _ _) as [|i0 [|i1 [|i2 [|i3 [|i4 [|i5 l]]]]]];
    try reflexivity.
  cbn [bind]. by rewrite filter_map_convert, filter_map_project, !map_map.
Qed.

Lemma positions_app (l : string) (c1 c2 : list string) (i : nat) :
  positions l (c1 ++ c2) i
  = (positions l c1 i ++ positions l c2 (i + length c1))%list.
Proof.
  revert i. induction c1 as [|c c1 IH]; intros i; simpl.
  - by rewrite Nat.add_0_r.
  - rewrite IH. replace (S i + length c1)%nat with (i + S (length c1))%nat by lia.
    by destruct (String.eqb c l).
Qed.

Lemma positions_bound (l : string) (cols : list string) (k i : nat) :
  In i (positions l cols k) -> (k <= i < k + length cols)%nat.
Proof.
  revert k. induction cols as [|c cols IH]; intros k; simpl; [tauto|].
  destruct (String.eqb c l); simpl.
  - intros [<-|H]; [lia|]. apply IH in H. lia.
  - intros H. apply IH in H. lia.
Qed.

Lemma selected_bound (cols : list string) (m : gmap Field string) (i : nat) :
  In i (selected cols m) -> (i < length cols)%nat.
Proof.
  unfold selected. rewrite in_flat_map. intros (f & _ & Hi).
  apply positions_bound in Hi. lia.
Qed.

Lemma scan_headers_snoc_unmatched (cols : list string) (h : string) :
  (forall f, pattern_matches f (col_clean h) = false) ->
  scan_headers (cols ++ [h]) = scan_headers cols.
Proof.
  intros Hno. unfold scan_headers. rewrite foldl_app. simpl.
  destruct (scan_header_cases (foldl scan_header ∅ cols) h)
    as [(f & [Hp _] & _)|[_ H]]; [|exact H].
  rewrite Hno in Hp. discriminate.
Qed.

Lemma selected_snoc_unmatched (cols : list string) (h : string) :
  (forall f, pattern_matches f (col_clean h) = false) ->
  missing_of (scan_headers cols) = [] ->
  selected (cols ++ [h]) (scan_headers cols) = selected cols (scan_headers cols).
Proof.
  intros Hno Hm. unfold selected. apply flat_map_ext. intros f.
  rewrite positions_app. simpl.
  destruct (proj1 (missing_of_nil _) Hm f) as [h' Hh'].
  unfold label_of. rewrite Hh'. simpl.
  destruct (String.eqb_spec h h') as [->|_]; [|by rewrite app_nil_r].
  destruct (foldl_scan_header_origin cols ∅ f h' Hh') as [H|[_ H]].
  - by rewrite lookup_empty in H.
  - rewrite Hno in H. discriminate.
Qed.

Lemma rows_with_extra_cell (i0 i1 i2 i3 i4 n : nat)
    (data : list (list cell)) (extras : list cell) :
  (i0 < n)%nat -> (i1 < n)%nat -> (i2 < n)%nat -> (i3 < n)%nat -> (i4 < n)%nat ->
  Forall (fun r => length r = n) data ->
  length extras = length data ->
  map (canonical_row i0 i1 i2 i3 i4)
    (List.filter (fun r => notna (nth i0 r CNull))
       (zip_with (fun r c => r ++ [c])%list data extras))
  = map (canonical_row i0 i1 i2 i3 i4)
      (List.filter (fun r => notna (nth i0 r CNull)) data).
Proof.
  intros H0 H1 H2 H3 H4 Hall. revert extras.
  induction Hall as [|r data Hr Hall IH]; intros [|c extras] Hlen;
    simpl in *; try reflexivity; try discriminate.
  rewrite (app_nth1 r [c] CNull) by lia.
  assert (Hrow : canonical_row i0 i1 i2 i3 i4 (r ++ [c])
                 = canonical_row i0 i1 i2 i3 i4 r).
  { unfold canonical_row. by rewrite !(app_nth1 r [c] CNull) by lia. }
  destruct (notna (nth i0 r CNull)); simpl; rewrite IH by lia;
    [by rewrite Hrow|reflexivity].
Qed.

(** X23: a column whose header no pattern accepts is never read: on a frame
    whose rows have one cell per column, adding such a column, with any
    cells, at the end of the file does not change the table loaded. *)
Theorem charger_inventaire_ignores_other_column (up up' : uploaded)
    (cols : list string) (data : list (list cell)) (h : string)
    (extras : list cell) (out : list InvRow) :
  read_frame up = inr {| columns := cols; rows := data |} ->
  read_frame up'
    = inr {| columns := (cols ++ [h])%list;
             rows := zip_with (fun r c => r ++ [c])%list data extras |} ->
  (forall f, pattern_matches f (col_clean (clean_header h)) = false) ->
  Forall (fun r => length r = length cols) data ->
  length extras = length data ->
  (charger_inventaire up' = inr out <-> charger_inventaire up = inr out).
Proof.
  intros Hread Hread' Hno Hrect Hlen.
  rewrite (charger_inventaire_on up _ _ Hread),
    (charger_inventaire_on up' _ _ Hread').
  rewrite map_app. simpl.
  rewrite (scan_headers_snoc_unmatched _ _ Hno).
  destruct (missing_of (scan_headers (map clean_header cols))) eqn:Hm;
    [|split; discriminate].
  rewrite (selected_snoc_unmatched _ _ Hno Hm).
  pose proof (selected_bound (map clean_header cols)
                (scan_headers (map clean_header cols))) as Hb.
  rewrite length_map in Hb.
  destruct (selected _ _) as [|i0 [|i1 [|i2 [|i3 [|i4 [|i5 l]]]]]];
    try (split; discriminate).
  rewrite (rows_with_extra_cell i0 i1 i2 i3 i4 (length cols));
    [reflexivity|..|exact Hrect|exact Hlen]; apply Hb; simpl; tauto.
Qed.

Lemma charger_inventaire_ignores_other_column_witness :
  (forall f, pattern_matches f (col_clean (clean_header "Remarque")) = false)
  /\ Forall (fun r => length r = length headers_plain) rows_blank_code
  /\ (charger_inventaire
        (csv_of (headers_plain ++ ["Remarque"])%list
           (zip_with (fun r c => r ++ [c])%list rows_blank_code
              [CStr "vu"; CNull]))
      = inr table_blank_code
      <-> charger_inventaire (csv_of headers_plain rows_blank_code)
          = inr table_blank_code).
Proof.
  assert (Hno : forall f,
            pattern_matches f (col_clean (clean_header "Remarque")) = false)
    by (intros f; destruct f; reflexivity).
  assert (Hrect : Forall (fun r => length r = length headers_plain)
                    rows_blank_code)
    by (repeat constructor).
  split; [exact Hno|]. split; [exact Hrect|].
  exact (charger_inventaire_ignores_other_column
           (csv_of headers_plain rows_blank_code)
           (csv_of (headers_plain ++ ["Remarque"])%list
              (zip_with (fun r c => r ++ [c])%list rows_blank_code
                 [CStr "vu"; CNull]))
           headers_plain rows_blank_code "Remarque" [CStr "vu"; CNull]
           table_blank_code eq_refl eq_refl Hno Hrect eq_refl).
Defined.

(** ** Names of the sheets and of the files offered (lines 222-235) *)

Lemma slice_to_app (n : nat) (s t : string) :
  Py.slice_to n (s ++ t)
  = Py.slice_to n s ++ Py.slice_to (n - String.length s) t.
Proof.
  revert n. induction s as [|c s IH]; intros n.
  - rewrite !append_nil, Nat.sub_0_r. destruct n; reflexivity.
  - rewrite append_cons. destruct n as [|n]; [reflexivity|].
    simpl. by rewrite IH, append_cons.
Qed.

Lemma append_cancel_l (s t u : string) : s ++ t = s ++ u -> t = u.
Proof.
  induction s as [|c s IH]; [by rewrite !append_nil|].
  rewrite !append_cons. intros H. apply IH. congruence.
Qed.

Lemma append_cancel_r (s t u : string) : s ++ u = t ++ u -> s = t.
Proof.
  intros H.
  assert (Hlen : String.length s = String.length t).
  { apply (f_equal String.length) in H. rewrite !length_append in H. lia. }
  revert t H Hlen. induction s as [|c s IH]; intros [|d t] H Hlen;
    try discriminate; [reflexivity|].
  rewrite !append_cons in H.
  assert (c = d) as -> by congruence.
  f_equal. apply IH; [congruence|]. simpl in Hlen. lia.
Qed.

(** X24: two sheets of the document of a reference get the same name exactly
    when the names of the two other agencies agree on their first
    27 - len(reference) characters. *)
Theorem sheet_name_collision_iff (nom_ref other other' : string) :
  Py.slice_to 31 (nom_ref ++ "_vs_" ++ other)
  = Py.slice_to 31 (nom_ref ++ "_vs_" ++ other')
  <-> Py.slice_to (27 - String.length nom_ref) other
      = Py.slice_to (27 - String.length nom_ref) other'.
Proof.
  rewrite <- !(append_assoc nom_ref "_vs_").
  rewrite !(slice_to_app 31 (nom_ref ++ "_vs_")), length_append.
  change (String.length "_vs_") with 4%nat.
  replace (31 - (String.length nom_ref + 4))%nat
    with (27 - String.length nom_ref)%nat by lia.
  split; [apply append_cancel_l|by intros ->].
Qed.

(** X25: when the generation runs to its end, the files offered for download
    are named after the agencies, in their order, and bear pairwise
    different names. *)
Theorem file_names_distinct (argsort : list Q -> list nat)
    (infos : list (string * list InvRow)) (docs : list document) :
  generer_rapports argsort infos = Generated docs ->
  map file_name docs
  = map (fun r => "rapport_inventaire_" ++ fst r ++ ".xlsx") infos
  /\ NoDup (map file_name docs).
Proof.
  intros Hgen. pose proof (generated_names _ _ _ Hgen) as Hnd.
  apply generated_reports in Hgen as [Hlen Hall].
  assert (Hnames : map file_name docs
            = map (fun r => "rapport_inventaire_" ++ fst r ++ ".xlsx") infos).
  { apply list_eq. intros k. rewrite !list_lookup_fmap.
    destruct (infos !! k) as [ref|] eqn:Hk.
    - assert (Hr : enumerate infos !! k = Some (k, ref))
        by (by rewrite lookup_enumerate, Hk).
      destruct (Forall2_lookup_r _ _ _ _ _ Hall Hr) as (doc & -> & Hname & _).
      simpl in *. by rewrite Hname.
    - assert (Hd : docs !! k = None).
      { apply lookup_ge_None. rewrite (Forall2_length _ _ _ Hall).
        unfold enumerate. rewrite length_combine, length_seq.
        apply lookup_ge_None in Hk. lia. }
      by rewrite Hd. }
  split; [exact Hnames|]. rewrite Hnames.
  assert (map (fun r : string * list InvRow =>
                 "rapport_inventaire_" ++ fst r ++ ".xlsx") infos
          = (fun nom => "rapport_inventaire_" ++ nom ++ ".xlsx")
              <$> (fst <$> infos)) as ->
    by (by rewrite <- list_fmap_compose).
  apply NoDup_fmap_2; [|exact Hnd].
  intros a b H. apply append_cancel_l in H. by apply append_cancel_r in H.
Qed.

Lemma file_names_distinct_witness :
  generer_rapports argsort_stable agencies_cut
  = Generated (documents_of (generer_rapports argsort_stable agencies_cut))
  /\ map file_name
         (documents_of (generer_rapports argsort_stable agencies_cut))
     = ["rapport_inventaire_Entrepot-central-de-Lyon.xlsx";
        "rapport_inventaire_Nord.xlsx";
        "rapport_inventaire_Sud-Est-Marseille.xlsx"]
  /\ NoDup (map file_name
              (documents_of (generer_rapports argsort_stable agencies_cut))).
Proof.
  assert (H : generer_rapports argsort_stable agencies_cut
              = Generated (documents_of
                             (generer_rapports argsort_stable agencies_cut)))
    by (vm_compute; reflexivity).
  split; [exact H|].
  destruct (file_names_distinct _ _ _ H) as [Hnames Hnd].
  split; [|exact Hnd]. rewrite Hnames. reflexivity.
Defined.


